(** * QLever UI end-to-end test harness: a shallow embedding of
      [end2end-test.py] and the properties of its hint decoder, page loader,
      hint poller and test runner. *)

From Stdlib Require Import String Ascii List ZArith NArith Lia Bool DecimalString.
Import ListNotations.
Open Scope string_scope.

(** ** Python strings

    A Python [str] is modelled as a [string] whose characters are the code
    points below 256; the character classes are those of Python 3 on that
    range ([str.isspace], and [\w], [\d] of the [re] module on [str]
    patterns). *)
Module PyStr.

Definition code (c : ascii) : N := N_of_ascii c.

Definition between (lo hi : N) (c : ascii) : bool :=
  ((lo <=? code c) && (code c <=? hi))%N.

(** [str.isspace] for one character: what [str.strip()] removes. *)
Definition is_space (c : ascii) : bool :=
  between 9 13 c || between 28 32 c || (code c =? 133)%N || (code c =? 160)%N.

(** [\d] *)
Definition is_digit (c : ascii) : bool := between 48 57 c.

(** [[A-Z]] *)
Definition is_upper (c : ascii) : bool := between 65 90 c.

(** [\w]: alphanumeric characters and the underscore. *)
Definition is_word (c : ascii) : bool :=
  is_digit c || is_upper c || (code c =? 95)%N || between 97 122 c
  || (code c =? 170)%N || between 178 179 c || (code c =? 181)%N
  || between 185 186 c || between 188 190 c || between 192 214 c
  || between 216 246 c || between 248 255 c.

(** The separator class of the pattern given to [re.split]: the double
    quote (code 34) and the at sign (code 64). *)
Definition is_sep (c : ascii) : bool :=
  (code c =? 34)%N || (code c =? 64)%N.

Definition slash : ascii := "/"%char.
Definition colon : ascii := ":"%char.
Definition qmark : ascii := "?"%char.
Definition dquote : ascii := ascii_of_N 34.

(** The one-character string holding a double quote. *)
Definition q : string := String dquote EmptyString.

(** [s.split(sep)] for a one-character separator: never empty, one more
    field than there are separators. *)
Fixpoint split (sep : ascii) (s : string) : list string :=
  match s with
  | EmptyString => [EmptyString]
  | String c s' =>
      if Ascii.eqb c sep then EmptyString :: split sep s'
      else match split sep s' with
           | h :: t => String c h :: t
           | [] => [String c EmptyString]
           end
  end.

Fixpoint lstrip (s : string) : string :=
  match s with
  | String c s' => if is_space c then lstrip s' else s
  | EmptyString => EmptyString
  end.

Fixpoint rstrip (s : string) : string :=
  match s with
  | EmptyString => EmptyString
  | String c s' =>
      match rstrip s' with
      | EmptyString => if is_space c then EmptyString else String c EmptyString
      | r => String c r
      end
  end.

(** [s.strip()] *)
Definition strip (s : string) : string := rstrip (lstrip s).

(** [re.split] on one or more separator characters: the fields between
    maximal runs of separator characters.  [in_run] tells that the previous character was a
    separator, so that the run it started is not closed twice. *)
Fixpoint re_split_from (in_run : bool) (s : string) : list string :=
  match s with
  | EmptyString => [EmptyString]
  | String c s' =>
      if is_sep c then
        if in_run then re_split_from true s'
        else EmptyString :: re_split_from true s'
      else match re_split_from false s' with
           | h :: t => String c h :: t
           | [] => [String c EmptyString]
           end
  end.

Definition re_split (s : string) : list string := re_split_from false s.

(** The longest prefix of [s] whose characters satisfy [p]. *)
Fixpoint take_while (p : ascii -> bool) (s : string) : string :=
  match s with
  | String c s' => if p c then String c (take_while p s') else EmptyString
  | EmptyString => EmptyString
  end.

(** [:([A-Z]\d+)] matched at the head of [s]; [\d+] is greedy and nothing
    follows it in the pattern, so it takes every digit there is. *)
Definition match_id (s : string) : option string :=
  match s with
  | String c (String u rest) =>
      if Ascii.eqb c colon && is_upper u then
        match take_while is_digit rest with
        | EmptyString => None
        | ds => Some (String u ds)
        end
      else None
  | _ => None
  end.

(** [(\w+):([A-Z]\d+)] matched at the head of [s], [acc] being the word
    characters already consumed by [\w+].  The greedy [\w+] first tries to
    take one more character and gives it back when the rest fails. *)
Fixpoint match_word (acc : string) (s : string) : option (string * string) :=
  match s with
  | String c s' =>
      if is_word c then
        let acc' := acc ++ String c EmptyString in
        match match_word acc' s' with
        | Some r => Some r
        | None =>
            match match_id s' with
            | Some i => Some (acc', i)
            | None => None
            end
        end
      else None
  | EmptyString => None
  end.

(** [re.search(r'(\w+):([A-Z]\d+)', s)]: the match at the leftmost start
    position that has one, as its two groups; [None] when there is none. *)
Fixpoint re_search (s : string) : option (string * string) :=
  match match_word EmptyString s with
  | Some r => Some r
  | None =>
      match s with
      | String _ s' => re_search s'
      | EmptyString => None
      end
  end.

(** [str(n)] for a natural number. *)
Definition of_nat (n : nat) : string := NilZero.string_of_uint (Nat.to_uint n).

(** [str(z)] for an integer. *)
Definition of_Z (z : Z) : string := NilZero.string_of_int (Z.to_int z).

End PyStr.

(** ** Exceptions and results *)

Inductive exn : Type :=
| AttributeError (msg : string)
| IndexError (msg : string)
| EOFError
| WebDriverException (msg : string)   (* selenium's exceptions *)
| KeyboardInterrupt
| SystemExit (status : Z).

(** [isinstance(e, Exception)]: what [except Exception] catches.
    [KeyboardInterrupt] and [SystemExit] derive from [BaseException] only. *)
Definition is_Exception (e : exn) : bool :=
  match e with
  | KeyboardInterrupt | SystemExit _ => false
  | _ => true
  end.

(** [str(e)] *)
Definition exn_str (e : exn) : string :=
  match e with
  | AttributeError m | IndexError m | WebDriverException m => m
  | EOFError => "EOF when reading a line"
  | KeyboardInterrupt => ""
  | SystemExit z => PyStr.of_Z z
  end.

Definition Result (A : Type) : Type := (exn + A)%type.

Definition list_index_error : exn := IndexError "list index out of range".
Definition string_index_error : exn := IndexError "string index out of range".

(** [l[i]] for [i >= 0]. *)
Definition list_get {A : Type} (l : list A) (i : nat) : Result A :=
  match nth_error l i with
  | Some x => inr x
  | None => inl list_index_error
  end.

(** [s[0]] *)
Definition str_first (s : string) : Result ascii :=
  match s with
  | String c _ => inr c
  | EmptyString => inl string_index_error
  end.

(** ** class Hint *)

Record Hint : Type := mkHint {
  fulltext : string;
  database_type : option string;     (* [None] or a [str] *)
  database_id : option string;
  name_language_pairs : list (string * string);
  primary_name : string
}.

(** [not x] for [x] that is [None] or a [str]. *)
Definition py_not (x : option string) : bool :=
  match x with
  | None => true
  | Some s => String.eqb s EmptyString
  end.

Definition parse_state : Type :=
  (option string * option string * list (string * string))%type.

(** One iteration of the loop of [Hint.parse]. *)
Definition parse_part (st : parse_state) (part : string) : Result parse_state :=
  let '(database_type, database_id, name_language_pairs) := st in
  let elements := PyStr.re_split (PyStr.strip part) in
  match
    (if py_not database_type then
       match list_get elements 0 with
       | inl e => inl e
       | inr e0 =>
           match PyStr.re_search e0 with
           | None => inl (AttributeError "'NoneType' object has no attribute 'groups'")
           | Some (k, i) => inr (Some k, Some i)
           end
       end
     else inr (database_type, database_id))
  with
  | inl e => inl e
  | inr (database_type, database_id) =>
      match list_get elements 1 with
      | inl e => inl e
      | inr name =>
          match list_get elements 2 with
          | inl e => inl e
          | inr language =>
              inr (database_type, database_id,
                   (name_language_pairs ++ [(name, language)])%list)
          end
      end
  end.

Fixpoint parse_parts (st : parse_state) (parts : list string) : Result parse_state :=
  match parts with
  | [] => inr st
  | part :: parts' =>
      match parse_part st part with
      | inl e => inl e
      | inr st' => parse_parts st' parts'
      end
  end.

(** [Hint.parse] *)
Definition parse (text : string) : Result parse_state :=
  parse_parts (None, None, []) (PyStr.split PyStr.slash text).

(** [Hint.__init__]: [Hint(text)] *)
Definition Hint_init (text : string) : Result Hint :=
  match parse text with
  | inl e => inl e
  | inr (database_type, database_id, name_language_pairs) =>
      match list_get name_language_pairs 0 with
      | inl e => inl e
      | inr p => inr (mkHint text database_type database_id name_language_pairs (fst p))
      end
  end.

(** [Hint.get_names] *)
Definition get_names (h : Hint) : list string := map fst (name_language_pairs h).

(** ** The test catalogue *)

(** One entry of [Testcases_Hints]; [hc_hints] is [output.hints], a list of
    lists of strings. *)
Record HintTestCase : Type := mkHintCase {
  hc_name : string;
  hc_input : string;
  hc_hints : list (list string)
}.

(** One entry of [Testcases_Examples]; [ec_lines] is [output.lines]. *)
Record ExampleTestCase : Type := mkExampleCase {
  ec_name : string;
  ec_input : string;
  ec_lines : list string
}.

(** The attributes of a [QleverUiTester] other than the driver. *)
Record QleverUiTester : Type := mkTester {
  headless : bool;
  url : string;
  num_retries : Z;
  timeout_loading : Z;
  test_cases_hints : list HintTestCase;
  test_cases_examples : list ExampleTestCase
}.

(** ** The browser session and the run's trace *)

Inductive By : Type := By_ID | By_XPATH | By_CLASS_NAME.

(** A selenium [WebElement], as the properties the harness reads from it:
    its rendered [text] and what [is_displayed()] answers.  An element is
    taken as the driver handed it over: reading a property does not raise,
    and the element keeps the text it had. *)
Record WebElement : Type := mkElement {
  text : string;
  is_displayed : bool
}.

(** [not el] for a [WebElement]: the class defines neither [__bool__] nor
    [__len__], so every element is true. *)
Definition not_element (el : WebElement) : bool := false.

Inductive level : Type := INFO | WARNING | ERROR.

(** What a run does, in order: the records handed to the logger and the
    calls made to the driver, the clock and the terminal. *)
Inductive Event : Type :=
| Log (lvl : level) (msg : string)
| Get (u : string)
| WaitPresence (timeout : Z) (by_ : By) (sel : string)
| FindElement (root : option WebElement) (by_ : By) (sel : string)
| FindElements (root : option WebElement) (by_ : By) (sel : string)
| Click (el : WebElement)
| SendKeys (el : WebElement) (keys : string)
| Close
| Sleep (millis : Z)
| Input.

(** The driver and its page, the clock and the terminal: each call answers
    with a value or raises, and moves the world on. *)
Class PageSession (W : Type) : Type := {
  driver_get : string -> W -> Result unit * W;
  wait_until_present : Z -> By -> string -> W -> Result WebElement * W;
  find_element : option WebElement -> By -> string -> W -> Result WebElement * W;
  find_elements : option WebElement -> By -> string -> W -> Result (list WebElement) * W;
  element_click : WebElement -> W -> Result unit * W;
  element_send_keys : WebElement -> string -> W -> Result unit * W;
  driver_close : W -> Result unit * W;
  time_sleep : Z -> W -> W;
  terminal_input : W -> Result string * W
}.

Record St (W : Type) : Type := mkSt {
  world : W;
  trace : list Event
}.
Arguments mkSt {W} _ _.
Arguments world {W} _.
Arguments trace {W} _.

(** ** A state and exception monad for the methods of the tester *)

Definition M (W A : Type) : Type := St W -> Result A * St W.

Definition ret {W A : Type} (a : A) : M W A := fun s => (inr a, s).

Definition raise {W A : Type} (e : exn) : M W A := fun s => (inl e, s).

Definition bind {W A B : Type} (m : M W A) (k : A -> M W B) : M W B :=
  fun s =>
    match m s with
    | (inl e, s') => (inl e, s')
    | (inr a, s') => k a s'
    end.

Notation "x <- m ;; k" := (bind m (fun x => k))
  (at level 61, m at next level, right associativity).
Notation "m ;; k" := (bind m (fun _ => k))
  (at level 61, right associativity).

(** [try: body / except <class>: handler], [catches] deciding the class. *)
Definition try_except {W A : Type} (catches : exn -> bool)
    (body : M W A) (handler : exn -> M W A) : M W A :=
  fun s =>
    match body s with
    | (inl e, s') => if catches e then handler e s' else (inl e, s')
    | (inr a, s') => (inr a, s')
    end.

(** A pure step that may raise. *)
Definition lift {W A : Type} (r : Result A) : M W A := fun s => (r, s).

Definition emit {W : Type} (ev : Event) : M W unit :=
  fun s => (inr tt, mkSt (world s) (trace s ++ [ev])).

(** A call to the world, recorded in the trace before its outcome. *)
Definition call {W A : Type} (ev : Event) (op : W -> Result A * W) : M W A :=
  fun s =>
    let (r, w') := op (world s) in
    (r, mkSt w' (trace s ++ [ev])).

(** How the body of a [for] loop ends one round. *)
Inductive ctl (R : Type) : Type :=
| Next                      (* fell through, or [continue] *)
| Break
| Return (r : R).
Arguments Next {R}.
Arguments Break {R}.
Arguments Return {R} _.

(** How a [for] loop ends. *)
Inductive loop_end (R : Type) : Type :=
| Exhausted                 (* the [else] clause of the loop runs *)
| Broken
| Returned (r : R).
Arguments Exhausted {R}.
Arguments Broken {R}.
Arguments Returned {R} _.

Fixpoint for_ {W A R : Type} (l : list A) (body : A -> M W (ctl R))
    : M W (loop_end R) :=
  match l with
  | [] => ret Exhausted
  | x :: l' =>
      c <- body x ;;
      match c with
      | Next => for_ l' body
      | Break => ret Broken
      | Return r => ret (Returned r)
      end
  end.

(** A [for] loop without [break] that updates local variables [acc]. *)
Fixpoint for_acc {W A S : Type} (l : list A) (body : A -> S -> M W S) (acc : S)
    : M W S :=
  match l with
  | [] => ret acc
  | x :: l' => acc' <- body x acc ;; for_acc l' body acc'
  end.

(** A list comprehension whose element expression may raise. *)
Fixpoint comprehension {W A B : Type} (f : A -> M W B) (l : list A) : M W (list B) :=
  match l with
  | [] => ret []
  | x :: l' => y <- f x ;; ys <- comprehension f l' ;; ret (y :: ys)
  end.

(** [range(n)] *)
Definition range (n : Z) : list Z := map Z.of_nat (seq 0 (Z.to_nat n)).

(** [range(len(l))] *)
Definition range_len {A : Type} (l : list A) : list nat := seq 0 (length l).

Definition q : string := PyStr.q.
Definition nl : string := String (ascii_of_N 10) EmptyString.

(** [%s] of a value that is [None] or a [str]. *)
Definition fmt (x : option string) : string :=
  match x with
  | Some s => s
  | None => "None"
  end.

(** [x in l] for [x] that is [None] or a [str] and [l] a list of strings. *)
Definition py_in (x : option string) (l : list string) : bool :=
  match x with
  | Some s => existsb (String.eqb s) l
  | None => false
  end.

(** ** class QleverUiTester *)

Section Tester.

Context {W : Type} {PS : PageSession W}.

Definition log_info (msg : string) : M W unit := emit (Log INFO msg).
Definition log_warning (msg : string) : M W unit := emit (Log WARNING msg).
Definition log_error (msg : string) : M W unit := emit (Log ERROR msg).

Definition get (u : string) : M W unit := call (Get u) (driver_get u).
Definition wait_presence (timeout : Z) (by_ : By) (sel : string) : M W WebElement :=
  call (WaitPresence timeout by_ sel) (wait_until_present timeout by_ sel).
Definition find (root : option WebElement) (by_ : By) (sel : string) : M W WebElement :=
  call (FindElement root by_ sel) (find_element root by_ sel).
Definition find_all (root : option WebElement) (by_ : By) (sel : string)
    : M W (list WebElement) :=
  call (FindElements root by_ sel) (find_elements root by_ sel).
Definition click (el : WebElement) : M W unit := call (Click el) (element_click el).
Definition send_keys (el : WebElement) (keys : string) : M W unit :=
  call (SendKeys el keys) (element_send_keys el keys).
Definition close : M W unit := call Close driver_close.
(** [time.sleep], the duration in milliseconds; it raises nothing. *)
Definition sleep (millis : Z) : M W unit :=
  call (Sleep millis) (fun w => (inr tt, time_sleep millis w)).
Definition input : M W string := call Input terminal_input.

(** [sys.exit(status)] *)
Definition sys_exit {A : Type} (status : Z) : M W A := raise (SystemExit status).

Variable self : QleverUiTester.

(** [QleverUiTester.done] *)
Definition done : M W unit :=
  input ;;
  log_info "Shutting down..." ;;
  try_except is_Exception close (fun _ => ret tt).

Definition msg_loaded : string :=
  "Page " ++ url self ++ " loaded successfully".

Definition msg_retry (i : Z) (e : exn) : string :=
  "Loading page failed"
  ++ " (attempt " ++ PyStr.of_Z (i + 1) ++ " of " ++ PyStr.of_Z (num_retries self)
  ++ ", error: " ++ q ++ exn_str e ++ q ++ ")"
  ++ ", trying again ...".

Definition msg_abort : string :=
  "Aborting after " ++ PyStr.of_Z (num_retries self) ++ " retries.".

(** One round of the loop of [init_page]. *)
Definition init_page_round (i : Z) : M W (ctl unit) :=
  try_except is_Exception
    (get (url self) ;;
     wait_presence (timeout_loading self) By_ID "query" ;;
     log_info msg_loaded ;;
     ret Break)
    (fun e =>
       if (i <? num_retries self - 1)%Z then
         log_info (msg_retry i e) ;;
         ret Next
       else
         log_error msg_abort ;;
         done ;;
         sys_exit 1).

(** [QleverUiTester.init_page] *)
Definition init_page : M W unit :=
  for_ (range (num_retries self)) init_page_round ;;
  ret tt.

Definition xpath_textarea : string :=
  "/html/body/div[1]/div[5]/div/div[1]/div/div[1]/textarea".

(** [QleverUiTester.send_to_textfield] *)
Definition send_to_textfield (keys : string) : M W unit :=
  textfield <- find None By_XPATH xpath_textarea ;;
  send_keys textfield keys.

(** The inner loop of [get_hints]: [hints] is returned as soon as one of
    its elements has a text whose first character is not the question
    mark. *)
Definition hints_ready (hints : list WebElement) : M W (loop_end (list WebElement)) :=
  for_ hints (fun hint =>
    c <- lift (str_first (text hint)) ;;
    if negb (Ascii.eqb c PyStr.qmark) then ret (Return hints) else ret Next).

(** One round of the outer loop of [get_hints]. *)
Definition get_hints_round (i : nat) : M W (ctl (list WebElement)) :=
  sleep 500 ;;
  found <- try_except (fun _ => true)
             (hint_window <- find None By_XPATH "/html/body/ul" ;;
              ret (Some hint_window))
             (fun _ =>
                log_info "Waiting for autocompletion hints..." ;;
                ret None) ;;
  match found with
  | None => ret Next                         (* [continue] *)
  | Some hint_window =>
      hints <- find_all (Some hint_window) By_CLASS_NAME "CodeMirror-hint" ;;
      r <- hints_ready hints ;;
      match r with
      | Returned hs => ret (Return hs)
      | _ => ret Next
      end
  end.

(** [QleverUiTester.get_hints] *)
Definition get_hints : M W (list WebElement) :=
  r <- for_ (seq 0 10) get_hints_round ;;
  match r with
  | Returned hs => ret hs
  | _ =>
      log_info "No hints were shown" ;;
      ret []
  end.

Definition xpath_examples_button : string :=
  "/html/body/div[1]/div[5]/div/div[3]/div[2]/button[4]".
Definition xpath_dropdown : string :=
  "/html/body/div[1]/div[5]/div/div[3]/div[2]/ul".
Definition xpath_example (label : string) : string :=
  "//span[contains(text(), '" ++ label ++ "')]".
Definition xpath_editor : string :=
  "/html/body/div[1]/div[5]/div/div[1]/div/div[6]/div[1]/div/div/div/div[5]".

Definition msg_button_failed (name : string) : string :=
  "Test Case " ++ name ++ ": Testing examples button failed".

Definition msg_line_mismatch (name : string) (i total : nat)
    (shown expected : string) : string :=
  "Test Case " ++ name ++ " (line " ++ PyStr.of_nat (i + 1) ++ "/"
  ++ PyStr.of_nat total ++ "): displayed" ++ nl ++ q ++ shown ++ q ++ nl
  ++ "instead of" ++ nl ++ q ++ expected ++ q.

(** One round of the comparison loop of [test_examples]. *)
Definition line_round (name : string) (lines : list WebElement)
    (expected_output : list string) (i : nat) : M W (ctl unit) :=
  line <- lift (list_get lines i) ;;
  expected <- lift (list_get expected_output i) ;;
  if negb (String.eqb (text line) expected) then
    log_warning (msg_line_mismatch name i (length expected_output)
                   (text line) expected) ;;
    log_warning ("Test Case " ++ name ++ " failed") ;;
    ret Break
  else ret Next.

(** The comparison loop of [test_examples], with its [else] clause. *)
Definition compare_lines (name : string) (lines : list WebElement)
    (expected_output : list string) : M W unit :=
  r <- for_ (range_len expected_output) (line_round name lines expected_output) ;;
  match r with
  | Exhausted => log_info "Test Case %s finished successfully"
  | _ => ret tt
  end.

(** The body of the loop of [test_examples]. *)
Definition test_example (test_case : ExampleTestCase) : M W unit :=
  let name := ec_name test_case in
  log_info "----------" ;;
  log_info ("Starting with Example Test " ++ name) ;;
  init_page ;;
  examples_button <- find None By_XPATH xpath_examples_button ;;
  if not_element examples_button then
    log_warning ("Test Case " ++ name ++ ": Could not find the examples button") ;;
    log_warning (msg_button_failed name)
  else
    click examples_button ;;
    dropdown_menu <- find None By_XPATH xpath_dropdown ;;
    if not_element dropdown_menu || negb (is_displayed dropdown_menu) then
      log_warning ("Test Case " ++ name ++ ": No examples were shown") ;;
      log_warning (msg_button_failed name)
    else
      example <- find (Some dropdown_menu) By_XPATH (xpath_example (ec_input test_case)) ;;
      if not_element example then
        log_warning ("Test Case " ++ name ++ ": Did not find " ++ q
                     ++ ec_input test_case ++ q ++ " example") ;;
        log_warning (msg_button_failed name)
      else
        click example ;;
        editor <- find None By_XPATH xpath_editor ;;
        lines <- find_all (Some editor) By_XPATH "//span[@role]" ;;
        compare_lines name lines (ec_lines test_case).

(** [QleverUiTester.test_examples] *)
Definition test_examples : M W unit :=
  for_acc (test_cases_examples self) (fun test_case _ => test_example test_case) tt.

Definition msg_hint_ok (name : string) (i total : nat) (h : Hint) : string :=
  "Test Case " ++ name ++ " (" ++ PyStr.of_nat (i + 1) ++ "/" ++ PyStr.of_nat total
  ++ "): Hint " ++ fmt (database_id h) ++ " " ++ q ++ primary_name h ++ q
  ++ " displayed correctly".

Definition msg_hint_wrong (name : string) (i total : nat) (h : Hint)
    (e0 e1 : string) : string :=
  "Test Case " ++ name ++ " (" ++ PyStr.of_nat (i + 1) ++ "/" ++ PyStr.of_nat total
  ++ "): Hint " ++ fmt (database_id h) ++ " " ++ q ++ primary_name h ++ q
  ++ " displayed instead of " ++ e0 ++ " " ++ q ++ e1 ++ q.

(** One round of the comparison loop of [test_hints]; the variables of the
    loop are [hints_found] and [hints_not_found]. *)
Definition hint_round (name : string) (hints : list Hint)
    (expected_hints : list (list string)) (i : nat)
    (found : list Hint * list Hint) : M W (list Hint * list Hint) :=
  let '(hints_found, hints_not_found) := found in
  hint <- lift (list_get hints i) ;;
  expected <- lift (list_get expected_hints i) ;;
  if py_in (database_id hint) expected then
    log_info (msg_hint_ok name i (length expected_hints) hint) ;;
    ret ((hints_found ++ [hint])%list, hints_not_found)
  else
    e0 <- lift (list_get expected 0) ;;
    e1 <- lift (list_get expected 1) ;;
    log_warning (msg_hint_wrong name i (length expected_hints) hint e0 e1) ;;
    ret (hints_found, (hints_not_found ++ [hint])%list).

(** The comparison loop of [test_hints]. *)
Definition compare_hints (name : string) (hints : list Hint)
    (expected_hints : list (list string)) : M W (list Hint * list Hint) :=
  for_acc (range_len expected_hints) (hint_round name hints expected_hints) ([], []).

(** The statements after the comparison loop of [test_hints]. *)
Definition report_hints (name : string) (hints_not_found : list Hint) : M W unit :=
  match hints_not_found with
  | _ :: _ =>
      log_warning ("Test Case " ++ name ++ ": "
                   ++ PyStr.of_nat (length hints_not_found) ++ " tests failed")
  | [] => log_info ("Test Case " ++ name ++ ": completed successfully")
  end.

(** The statements of the loop of [test_hints] that bring up the raw hints. *)
Definition collect_hints (test_case : HintTestCase) : M W (list WebElement) :=
  log_info "----------" ;;
  log_info ("Starting with Hint Test " ++ hc_name test_case) ;;
  init_page ;;
  send_to_textfield (hc_input test_case) ;;
  get_hints.

(** The body of the loop of [test_hints]. *)
Definition test_hint (test_case : HintTestCase) : M W unit :=
  unprocessed_hints <- collect_hints test_case ;;
  hints <- comprehension (fun unprocessed_hint => lift (Hint_init (text unprocessed_hint)))
             unprocessed_hints ;;
  r <- compare_hints (hc_name test_case) hints (hc_hints test_case) ;;
  report_hints (hc_name test_case) (snd r).

(** [QleverUiTester.test_hints] *)
Definition test_hints : M W unit :=
  for_acc (test_cases_hints self) (fun test_case _ => test_hint test_case) tt ;;
  log_info "All Test Cases are finished.".

(** [QleverUiTester.test] *)
Definition test : M W unit :=
  test_examples ;;
  test_hints.

(** The last two statements of the script: the run and the teardown. *)
Definition main : M W unit :=
  test ;;
  done.

End Tester.

(** ** Vocabulary of the statements about the decoder *)

Module HintForm.
Import PyStr.

Fixpoint all_chars (p : ascii -> bool) (s : string) : bool :=
  match s with
  | String c s' => p c && all_chars p s'
  | EmptyString => true
  end.

Definition no_slash (c : ascii) : bool := negb (Ascii.eqb c slash).

Definition no_sep (c : ascii) : bool := negb (is_sep c).

(** An identifier: an upper-case letter and one digit or more. *)
Definition is_id (i : string) : bool :=
  match i with
  | String u ds => is_upper u && negb (String.eqb ds "") && all_chars is_digit ds
  | EmptyString => false
  end.

(** A kind: one word character or more. *)
Definition is_kind (k : string) : bool :=
  negb (String.eqb k "") && all_chars is_word k.

(** A character that may stand inside a name or a language: no quote, no
    at sign, no slash. *)
Definition plain (c : ascii) : bool := no_sep c && no_slash c.

Definition wf_name (n : string) : bool :=
  negb (String.eqb n "") && all_chars plain n.

(** A language holds plain characters and does not end in white space. *)
Definition wf_lang (l : string) : bool :=
  all_chars plain l && String.eqb (rstrip l) l.

Definition wf_pair (p : string * string) : bool :=
  wf_name (fst p) && wf_lang (snd p).

(** The segment of one name and language pair: the name in double quotes,
    an at sign, the language. *)
Definition encode_pair (p : string * string) : string :=
  q ++ fst p ++ q ++ "@" ++ snd p.

(** The encoded hint: kind, colon, identifier and the first pair, then
    the other pairs, each behind a slash. *)
Definition encode (kind id : string) (p : string * string)
    (ps : list (string * string)) : string :=
  String.concat "/" ((kind ++ ":" ++ id ++ encode_pair p) :: map encode_pair ps).

End HintForm.

(** ** When the decoder fails *)

Module Malformed.
Import PyStr.

(** The fields of a segment, as the loop of [Hint.parse] takes them. *)
Definition fields (part : string) : list string := re_split (strip part).

(** A segment without a second and a third field: no name or no
    language. *)
Definition short (part : string) : bool := (length (fields part) <? 3)%nat.

Definition no_match (s : string) : bool :=
  match re_search s with
  | None => true
  | Some _ => false
  end.

(** The failure condition of [Hint.parse]: the marker is looked for in the
    first field of the first segment. *)
Definition malformed (raw : string) : bool :=
  let parts := split slash raw in
  no_match (hd "" (fields (hd "" parts))) || existsb short parts.

(** The failure condition in the words of the specification: the marker
    is looked for in the first segment. *)
Definition spec_malformed (raw : string) : bool :=
  let parts := split slash raw in
  no_match (hd "" parts) || existsb short parts.

(** A hint whose marker stands behind the name and the language. *)
Definition marker_last : string :=
  q ++ "Douglas Adams" ++ q ++ "@en wd:Q42".

End Malformed.

(** ** Vocabulary of the statements about a run *)

(** The state [s] once the events [evs] are added to its trace, the world
    left as it is. *)
Definition after {W : Type} (s : St W) (evs : list Event) : St W :=
  mkSt (world s) (trace s ++ evs).

Definition is_get (ev : Event) : bool :=
  match ev with Get _ => true | _ => false end.

(** How many times the page was requested. *)
Definition gets (t : list Event) : nat := length (filter is_get t).

Definition is_warning (ev : Event) : bool :=
  match ev with Log WARNING _ => true | _ => false end.

(** The report of one position of a hint test case, as the specification
    names it. *)
Record PositionResult : Type := mkPosition {
  index : nat;
  actual : Hint;
  expected : list string;
  matched : bool
}.

Inductive Status : Type :=
| Passed
| PartiallyFailed (failures : nat)
| Skipped.

(** The position results of the specification: position by position, the
    actual hint against the expected entry, matched when the identifier of
    the hint is a member of the entry. *)
Fixpoint results_from (i : nat) (hints : list Hint)
    (expected_hints : list (list string)) : list PositionResult :=
  match hints, expected_hints with
  | h :: hints', e :: expected' =>
      mkPosition i h e (py_in (database_id h) e) :: results_from (S i) hints' expected'
  | _, _ => []
  end.

Definition position_results (hints : list Hint)
    (expected_hints : list (list string)) : list PositionResult :=
  results_from 0 hints expected_hints.

Definition failing (rs : list PositionResult) : list PositionResult :=
  filter (fun r => negb (matched r)) rs.

Definition passing (rs : list PositionResult) : list PositionResult :=
  filter matched rs.

(** The overall status of a hint test case. *)
Definition overall (rs : list PositionResult) : Status :=
  match length (failing rs) with
  | O => Passed
  | n => PartiallyFailed n
  end.

(** The log record of a position result. *)
Definition position_event (name : string) (total : nat) (r : PositionResult) : Event :=
  if matched r then
    Log INFO (msg_hint_ok name (index r) total (actual r))
  else
    Log WARNING (msg_hint_wrong name (index r) total (actual r)
                   (nth 0 (expected r) "") (nth 1 (expected r) "")).

(** The log record of an overall status. *)
Definition status_event (name : string) (st : Status) : Event :=
  match st with
  | Passed => Log INFO ("Test Case " ++ name ++ ": completed successfully")
  | PartiallyFailed n =>
      Log WARNING ("Test Case " ++ name ++ ": " ++ PyStr.of_nat n ++ " tests failed")
  | Skipped => Log WARNING (msg_button_failed name)
  end.

(** The text of the element starts with the question mark of a
    placeholder. *)
Definition placeholder (el : WebElement) : bool :=
  match text el with
  | String c _ => Ascii.eqb c PyStr.qmark
  | EmptyString => false
  end.

Definition has_text (el : WebElement) : bool :=
  negb (String.eqb (text el) "").

(** The readiness of an enumeration in the words of the specification: at
    least one element whose text does not start with the question mark. *)
Definition ready (hints : list WebElement) : bool :=
  existsb (fun el => negb (placeholder el)) hints.

(** What a poll of [get_hints] adds to the trace when the pop-up is there. *)
Definition poll_events (hint_window : WebElement) : list Event :=
  [Sleep 500; FindElement None By_XPATH "/html/body/ul";
   FindElements (Some hint_window) By_CLASS_NAME "CodeMirror-hint"].

Definition is_error_record (ev : Event) : bool :=
  match ev with Log ERROR _ => true | _ => false end.

(** One attempt to load the page: the two calls to the driver in the [try]
    block of [init_page]. *)
Definition attempt {W : Type} {PS : PageSession W} (self : QleverUiTester)
    : M W WebElement :=
  get (url self) ;;
  wait_presence (timeout_loading self) By_ID "query".

(** What the trace of a run ends with when [init_page] gave up: the error
    record, then [done] from its prompt to the closing of the browser. *)
Definition abort_events (self : QleverUiTester) : list Event :=
  [Log ERROR (msg_abort self); Input; Log INFO "Shutting down..."; Close].

Definition aborted (self : QleverUiTester) (t : list Event) : Prop :=
  exists evs, t = (evs ++ abort_events self)%list.

Definition is_exit (e : exn) : bool :=
  match e with SystemExit _ => true | _ => false end.

Definition raises_exit {A : Type} (r : Result A) : bool :=
  match r with
  | inl e => is_exit e
  | inr _ => false
  end.

(** A piece of a run that raises [SystemExit] only with status 1 and at the
    end of an abort by [init_page]. *)
Definition exits_by_abort {W A : Type} (self : QleverUiTester) (m : M W A) : Prop :=
  forall s r s', m s = (r, s') ->
  forall c, r = inl (SystemExit c) -> c = 1%Z /\ aborted self (trace s').

(** The two records that open an example test case. *)
Definition example_header (test_case : ExampleTestCase) : list Event :=
  [Log INFO "----------";
   Log INFO ("Starting with Example Test " ++ ec_name test_case)].

(** A world none of whose calls raises [SystemExit]. *)
Record Quiet (W : Type) {PS : PageSession W} : Prop := {
  quiet_get : forall u w, raises_exit (fst (driver_get u w)) = false;
  quiet_wait : forall t b sel w, raises_exit (fst (wait_until_present t b sel w)) = false;
  quiet_find : forall r b sel w, raises_exit (fst (find_element r b sel w)) = false;
  quiet_find_all : forall r b sel w, raises_exit (fst (find_elements r b sel w)) = false;
  quiet_click : forall el w, raises_exit (fst (element_click el w)) = false;
  quiet_send_keys : forall el k w, raises_exit (fst (element_send_keys el k w)) = false;
  quiet_close : forall w, raises_exit (fst (driver_close w)) = false;
  quiet_input : forall w, raises_exit (fst (terminal_input w)) = false
}.

(** ** A scripted browser

    A page session that answers the calls of a run from a list of replies
    prepared in advance, one reply for each call in order; the clock needs
    none. *)

Module Scripted.

Inductive reply : Type :=
| Raises (e : exn)
| Ok
| Element (el : WebElement)
| Elements (els : list WebElement)
| Line (s : string).

Definition World : Type := list reply.

Definition off_script : exn := WebDriverException "unexpected reply".

Definition next {A : Type} (pick : reply -> option A) (w : World) : Result A * World :=
  match w with
  | [] => (inl off_script, [])
  | Raises e :: w' => (inl e, w')
  | r :: w' =>
      match pick r with
      | Some a => (inr a, w')
      | None => (inl off_script, w')
      end
  end.

Definition pick_ok (r : reply) : option unit :=
  match r with Ok => Some tt | _ => None end.
Definition pick_element (r : reply) : option WebElement :=
  match r with Element el => Some el | _ => None end.
Definition pick_elements (r : reply) : option (list WebElement) :=
  match r with Elements els => Some els | _ => None end.
Definition pick_line (r : reply) : option string :=
  match r with Line s => Some s | _ => None end.

#[global] Instance scripted : PageSession World := {|
  driver_get := fun _ => next pick_ok;
  wait_until_present := fun _ _ _ => next pick_element;
  find_element := fun _ _ _ => next pick_element;
  find_elements := fun _ _ _ => next pick_elements;
  element_click := fun _ => next pick_ok;
  element_send_keys := fun _ _ => next pick_ok;
  driver_close := next pick_ok;
  time_sleep := fun _ w => w;
  terminal_input := next pick_line
|}.

Definition start (w : World) : St World := mkSt w [].

Definition no_such_element : exn := WebDriverException "NoSuchElementException".
Definition timed_out : exn := WebDriverException "TimeoutException".

(** An element shown on the page with the given text. *)
Definition shown (t : string) : WebElement := mkElement t true.

(** The replies of a page that loads at once. *)
Definition loads : World := [Ok; Element (shown "")].

End Scripted.

(** ** A browser without a server

    Every call to the driver raises; the prompt of the terminal returns. *)

Module Offline.

Definition refused : exn := WebDriverException "connection refused".

#[global] Instance offline : PageSession unit := {|
  driver_get := fun _ w => (inl refused, w);
  wait_until_present := fun _ _ _ w => (inl refused, w);
  find_element := fun _ _ _ w => (inl refused, w);
  find_elements := fun _ _ _ w => (inl refused, w);
  element_click := fun _ w => (inl refused, w);
  element_send_keys := fun _ _ w => (inl refused, w);
  driver_close := fun w => (inl refused, w);
  time_sleep := fun _ w => w;
  terminal_input := fun w => (inr "", w)
|}.

Definition fresh : St unit := mkSt tt [].

End Offline.

(** ** Sample data for the statements *)

Module Samples.
Import Scripted.

(** The record that [Hint] builds for a one-segment hint in English. *)
Definition hint (id name : string) : Hint :=
  mkHint ("wd:" ++ id ++ q ++ name ++ q ++ "@en") (Some "wd") (Some id)
    [(name, "en")] name.

(** Three hints shown in this order. *)
Definition three_hints : list Hint :=
  [hint "Q1" "one"; hint "Q2" "two"; hint "Q3" "three"].

(** Three expected entries, the second of which does not accept [Q2]. *)
Definition second_differs : list (list string) :=
  [["Q1"; "one"]; ["Q9"; "nine"]; ["Q3"; "three"]].

(** An entry whose display name reads like an identifier. *)
Definition named_like_id : list (list string) := [["Q42"; "T1000"]].

(** A tester with the given hint test cases and no example test case. *)
Definition tester_hints (cases : list HintTestCase) : QleverUiTester :=
  mkTester true "https://qlever.cs.uni-freiburg.de" 5 5 cases [].

Definition case_one : HintTestCase := mkHintCase "one" "SELECT" [["Q1"; "one"]].
Definition case_two : HintTestCase := mkHintCase "two" "SELECT *" [["Q2"; "two"]].

(** The text area is found and takes the keys. *)
Definition types : World := [Element (shown ""); Ok].

(** No pop-up at any of the ten polls. *)
Definition no_popup : World := repeat (Raises no_such_element) 10.

(** The pop-up is there at the first poll and lists [els]. *)
Definition popup (els : list WebElement) : World := [Element (shown ""); Elements els].

(** The page loads, takes the keys and shows one hint that is no encoded
    hint; the replies for a second test case follow. *)
Definition garbage_shown : World :=
  (loads ++ types ++ popup [shown "garbage"]
   ++ loads ++ types ++ popup [shown ("wd:Q2" ++ q ++ "two" ++ q ++ "@en")])%list.

(** A tester with the given example test cases and no hint test case. *)
Definition tester_examples (cases : list ExampleTestCase) : QleverUiTester :=
  mkTester true "https://qlever.cs.uni-freiburg.de" 5 5 [] cases.

Definition example_first : ExampleTestCase :=
  mkExampleCase "first" "Cities" ["SELECT ?city WHERE {"; "}"].
Definition example_second : ExampleTestCase :=
  mkExampleCase "second" "Rivers" ["SELECT ?river WHERE {"; "}"].

(** The page loads and has no examples button; the replies for a second
    test case follow. *)
Definition button_missing : World :=
  (loads ++ [Raises no_such_element] ++ loads ++ [Raises no_such_element])%list.

(** The page loads, the button is there and takes the click, the dropdown is
    there and is not displayed; the same for a second test case. *)
Definition dropdown_hidden : World :=
  (loads ++ [Element (shown "Examples"); Ok; Element (mkElement "" false)]
   ++ loads ++ [Element (shown "Examples"); Ok; Element (mkElement "" false)])%list.

(** The page loads and has everything an example test case asks for: the
    button, the displayed dropdown, the example, the editor and its two
    lines. *)
Definition example_shown : World :=
  (loads ++ [Element (shown "Examples"); Ok; Element (shown "");
             Element (shown "Cities"); Ok; Element (shown "");
             Elements [shown "SELECT ?city WHERE {"; shown "}"]])%list.

(** The pop-up lists an element without text before a real hint. *)
Definition blank_then_hint : World :=
  popup [shown ""; shown ("wd:Q1" ++ q ++ "one" ++ q ++ "@en")].

(** The pop-up lists a placeholder, then an element without text. *)
Definition placeholder_then_blank : World :=
  popup [shown "?city"; shown ""].

(** Three polls that see placeholders only, then a poll that sees a
    placeholder and a real hint. *)
Definition ready_at_fourth_poll : World :=
  (popup [shown "?a"] ++ popup [shown "?a"; shown "?b"] ++ popup [shown "?a"]
   ++ popup [shown "?a"; shown ("wd:Q1" ++ q ++ "one" ++ q ++ "@en")])%list.

(** The page loads at the first attempt and takes the keys; no pop-up comes
    up; then the prompt of [done] and the closing of the browser. *)
Definition loaded_no_hints : World :=
  (loads ++ types ++ no_popup ++ [Line ""; Ok])%list.

(** Two attempts that time out, then the prompt and the closing. *)
Definition never_loads : World :=
  [Raises timed_out; Ok; Raises timed_out; Line ""; Ok].

(** A failed attempt, then the page loads. *)
Definition loads_at_second : World := (Raises timed_out :: loads)%list.

(** A tester that tries twice. *)
Definition tester_twice : QleverUiTester :=
  mkTester true "https://qlever.cs.uni-freiburg.de" 2 5 [case_one] [example_first].

(** A hint test case with two expected positions, and a page that loads,
    takes the keys and shows the first of the two hints only. *)
Definition case_pair : HintTestCase :=
  mkHintCase "pair" "SELECT" [["Q1"; "one"]; ["Q2"; "two"]].

Definition one_hint_shown : World :=
  (loads ++ types ++ popup [shown ("wd:Q1" ++ q ++ "one" ++ q ++ "@en")])%list.

(** A hint test case whose one entry holds a single identifier, which is
    not the one of the hint shown. *)
Definition case_short : HintTestCase := mkHintCase "short" "SELECT" [["Q9"]].

(** A hint test case with three expected positions, the second of which
    does not accept the hint shown there, and the page that shows the three
    hints. *)
Definition case_three : HintTestCase := mkHintCase "three" "SELECT" second_differs.

Definition three_hints_shown : World :=
  (loads ++ types
   ++ popup [shown ("wd:Q1" ++ q ++ "one" ++ q ++ "@en");
             shown ("wd:Q2" ++ q ++ "two" ++ q ++ "@en");
             shown ("wd:Q3" ++ q ++ "three" ++ q ++ "@en")])%list.

(** An example test case with three expected lines, and pages that have
    everything and render three lines: the first one differing, or all as
    expected. *)
Definition example_three : ExampleTestCase :=
  mkExampleCase "three" "Cities" ["a"; "b"; "c"].

Definition renders (lines : list string) : World :=
  (loads ++ [Element (shown "Examples"); Ok; Element (shown "");
             Element (shown "Cities"); Ok; Element (shown "");
             Elements (map shown lines)])%list.

End Samples.

(** ** Vocabulary of the statements about the decoder, continued *)

Module Decoded.
Import PyStr HintForm Malformed.

(** What [Hint.parse] raises when the marker is not found. *)
Definition attribute_error : exn :=
  AttributeError "'NoneType' object has no attribute 'groups'".

(** The name and the language that the loop of [Hint.parse] takes from a
    segment: its second and its third field. *)
Definition name_language (part : string) : string * string :=
  (nth 1 (fields part) "", nth 2 (fields part) "").

(** How many times the character [c] stands in [s]. *)
Fixpoint occurrences (c : ascii) (s : string) : nat :=
  match s with
  | EmptyString => 0
  | String x s' => (if Ascii.eqb x c then 1 else 0) + occurrences c s'
  end.

(** The first character of [s] satisfies [p]. *)
Definition starts_with (p : ascii -> bool) (s : string) : bool :=
  match s with
  | String c _ => p c
  | EmptyString => false
  end.

(** The last character of [s] satisfies [p]. *)
Fixpoint ends_with (p : ascii -> bool) (s : string) : bool :=
  match s with
  | EmptyString => false
  | String c EmptyString => p c
  | String _ s' => ends_with p s'
  end.

(** A segment with white space around it. *)
Definition padded (seg : string * string * string) : string :=
  let '(before, core, behind) := seg in before ++ core ++ behind.

Definition core (seg : string * string * string) : string :=
  let '(_, c, _) := seg in c.

Definition well_padded (seg : string * string * string) : bool :=
  let '(before, c, behind) := seg in
  all_chars is_space before && all_chars no_slash c && all_chars is_space behind.

End Decoded.

(** ** Vocabulary of the statements about a run, continued *)

Definition is_sleep (ev : Event) : bool :=
  match ev with Sleep _ => true | _ => false end.

(** How many times the run slept. *)
Definition sleeps (t : list Event) : nat := length (filter is_sleep t).

(** An element with a text whose first character is not the question mark:
    what makes the inner loop of [get_hints] return. *)
Definition real_hint (el : WebElement) : bool :=
  match text el with
  | String c _ => negb (Ascii.eqb c PyStr.qmark)
  | EmptyString => false
  end.

(** What a poll of [get_hints] adds to the trace when the pop-up is not
    there. *)
Definition waiting_events : list Event :=
  [Sleep 500; FindElement None By_XPATH "/html/body/ul";
   Log INFO "Waiting for autocompletion hints..."].

(** The calls of an example test case between the loading of the page and
    the comparison, when every element is found. *)
Definition example_events (label : string) (button menu example editor : WebElement)
    : list Event :=
  [FindElement None By_XPATH xpath_examples_button;
   Click button;
   FindElement None By_XPATH xpath_dropdown;
   FindElement (Some menu) By_XPATH (xpath_example label);
   Click example;
   FindElement None By_XPATH xpath_editor;
   FindElements (Some editor) By_XPATH "//span[@role]"].

(** The two records that open a hint test case. *)
Definition hint_header (test_case : HintTestCase) : list Event :=
  [Log INFO "----------";
   Log INFO ("Starting with Hint Test " ++ hc_name test_case)].

(** An encoded hint, as kind, identifier, first pair and further pairs, and
    the record that [Hint] builds from its encoding. *)
Definition hint_parts : Type :=
  (string * string * (string * string) * list (string * string))%type.

Definition encoded (d : hint_parts) : string :=
  let '(kind, id, p, ps) := d in HintForm.encode kind id p ps.

Definition decoded (d : hint_parts) : Hint :=
  let '(kind, id, p, ps) := d in
  mkHint (HintForm.encode kind id p ps) (Some kind) (Some id) (p :: ps) (fst p).

Definition well_formed (d : hint_parts) : bool :=
  let '(kind, id, p, ps) := d in
  HintForm.is_kind kind && HintForm.is_id id && forallb HintForm.wf_pair (p :: ps).

Definition id_of (d : hint_parts) : string :=
  let '(_, id, _, _) := d in id.

(** Every expected entry holds the identifier of the hint at its position. *)
Fixpoint all_accepted (ds : list hint_parts) (expected_hints : list (list string)) : bool :=
  match expected_hints, ds with
  | [], _ => true
  | e :: es, d :: ds' => existsb (String.eqb (id_of d)) e && all_accepted ds' es
  | _ :: _, [] => false
  end.

(** ** Loading the catalogue *)

(** A value read by [json.load]; a number that is no integer is kept as its
    literal, an object as the entries of the [dict] built from it, whose
    keys are distinct. *)
#[warnings="-register-all"]
Inductive json : Type :=
| JNull
| JBool (b : bool)
| JInt (z : Z)
| JFloat (literal : string)
| JString (s : string)
| JArray (items : list json)
| JObject (entries : list (string * json)).

Fixpoint entry (key : string) (entries : list (string * json)) : option json :=
  match entries with
  | [] => None
  | (k, v) :: rest => if String.eqb k key then Some v else entry key rest
  end.

Definition type_name (v : json) : string :=
  match v with
  | JNull => "NoneType"
  | JBool _ => "bool"
  | JInt _ => "int"
  | JFloat _ => "float"
  | JString _ => "str"
  | JArray _ => "list"
  | JObject _ => "dict"
  end.

(** [data.get(key, default)]: only a [dict] has the method. *)
Definition dict_get (data : json) (key : string) (default : json) : Result json :=
  match data with
  | JObject entries =>
      inr (match entry key entries with
           | Some v => v
           | None => default
           end)
  | _ => inl (AttributeError ("'" ++ type_name data ++ "' object has no attribute 'get'"))
  end.

(** The two attributes that [init_test_cases] assigns. *)
Record Catalogue : Type := mkCatalogue {
  loaded_hints : json;
  loaded_examples : json
}.

(** What [__init__] sets before it calls [init_test_cases]. *)
Definition empty_catalogue : Catalogue := mkCatalogue (JArray []) (JArray []).

Definition could_not_initialize : Event :=
  Log ERROR "Could not initialize test cases.".

(** [QleverUiTester.init_test_cases]: [loaded] is what opening the file and
    [json.load] gave, a value or an exception; the result is the attributes
    after the call and the records logged.  The bare [except] catches
    whatever is raised, after the assignments made so far. *)
Definition init_test_cases (loaded : Result json) (self : Catalogue)
    : Catalogue * list Event :=
  match loaded with
  | inl _ => (self, [could_not_initialize])
  | inr data =>
      match dict_get data "Testcases_Hints" (JArray []) with
      | inl _ => (self, [could_not_initialize])
      | inr hints =>
          let self1 := mkCatalogue hints (loaded_examples self) in
          match dict_get data "Testcases_Examples" (JArray []) with
          | inl _ => (self1, [could_not_initialize])
          | inr examples => (mkCatalogue (loaded_hints self1) examples, [])
          end
      end
  end.

(** ** The example path up to the comparison *)

(** The statements of the body of the loop of [test_examples] that stand
    before the comparison loop: they bring up the rendered lines, or end the
    test case ([None]) where the body says [continue]. *)
Definition example_lines {W : Type} {PS : PageSession W} (self : QleverUiTester)
    (test_case : ExampleTestCase) : M W (option (list WebElement)) :=
  let name := ec_name test_case in
  log_info "----------" ;;
  log_info ("Starting with Example Test " ++ name) ;;
  init_page self ;;
  examples_button <- find None By_XPATH xpath_examples_button ;;
  if not_element examples_button then
    log_warning ("Test Case " ++ name ++ ": Could not find the examples button") ;;
    log_warning (msg_button_failed name) ;;
    ret None
  else
    click examples_button ;;
    dropdown_menu <- find None By_XPATH xpath_dropdown ;;
    if not_element dropdown_menu || negb (is_displayed dropdown_menu) then
      log_warning ("Test Case " ++ name ++ ": No examples were shown") ;;
      log_warning (msg_button_failed name) ;;
      ret None
    else
      example <- find (Some dropdown_menu) By_XPATH (xpath_example (ec_input test_case)) ;;
      if not_element example then
        log_warning ("Test Case " ++ name ++ ": Did not find " ++ q
                     ++ ec_input test_case ++ q ++ " example") ;;
        log_warning (msg_button_failed name) ;;
        ret None
      else
        click example ;;
        editor <- find None By_XPATH xpath_editor ;;
        lines <- find_all (Some editor) By_XPATH "//span[@role]" ;;
        ret (Some lines).
(** ** Facts about the string operations *)

Module PyStrFacts.
Import PyStr HintForm.

Lemma append_assoc (a b c : string) : (a ++ b) ++ c = a ++ (b ++ c).
Proof. induction a as [|x a IH]; simpl; [reflexivity | now rewrite IH]. Qed.

Lemma append_nil_r (a : string) : a ++ "" = a.
Proof. induction a as [|x a IH]; simpl; [reflexivity | now rewrite IH]. Qed.

Lemma all_chars_app p a b :
  all_chars p (a ++ b) = all_chars p a && all_chars p b.
Proof.
  induction a as [|x a IH]; simpl; [reflexivity|].
  now rewrite IH, andb_assoc.
Qed.

Lemma all_chars_weaken (p p' : ascii -> bool) s :
  (forall c, p c = true -> p' c = true) ->
  all_chars p s = true -> all_chars p' s = true.
Proof.
  intros Hp. induction s as [|x s IH]; simpl; [reflexivity|].
  intros H. apply andb_true_iff in H as [Hx Hs].
  now rewrite (Hp _ Hx), IH.
Qed.

(** A fact about every character is checked on the 256 of them. *)
Lemma forall_ascii (P : ascii -> bool) :
  forallb P (map ascii_of_nat (seq 0 256)) = true -> forall c, P c = true.
Proof.
  intros H c. rewrite forallb_forall in H. apply H.
  rewrite <- (ascii_nat_embedding c). apply in_map, in_seq.
  pose proof (nat_ascii_bounded c). lia.
Qed.

Lemma word_not_space c : is_word c = true -> is_space c = false.
Proof.
  revert c.
  assert (H : forall c, implb (is_word c) (negb (is_space c)) = true)
    by (apply forall_ascii; vm_compute; reflexivity).
  intros c Hc. specialize (H c). rewrite Hc in H. simpl in H.
  now apply negb_true_iff.
Qed.

Lemma word_not_sep c : is_word c = true -> is_sep c = false.
Proof.
  revert c.
  assert (H : forall c, implb (is_word c) (negb (is_sep c)) = true)
    by (apply forall_ascii; vm_compute; reflexivity).
  intros c Hc. specialize (H c). rewrite Hc in H. simpl in H.
  now apply negb_true_iff.
Qed.

Lemma word_not_slash c : is_word c = true -> Ascii.eqb c slash = false.
Proof.
  revert c.
  assert (H : forall c, implb (is_word c) (negb (Ascii.eqb c slash)) = true)
    by (apply forall_ascii; vm_compute; reflexivity).
  intros c Hc. specialize (H c). rewrite Hc in H. simpl in H.
  now apply negb_true_iff.
Qed.

Lemma word_not_colon c : is_word c = true -> Ascii.eqb c colon = false.
Proof.
  revert c.
  assert (H : forall c, implb (is_word c) (negb (Ascii.eqb c colon)) = true)
    by (apply forall_ascii; vm_compute; reflexivity).
  intros c Hc. specialize (H c). rewrite Hc in H. simpl in H.
  now apply negb_true_iff.
Qed.

Lemma upper_is_word c : is_upper c = true -> is_word c = true.
Proof. intros H. unfold is_word. rewrite H. now rewrite orb_true_r. Qed.

Lemma digit_is_word c : is_digit c = true -> is_word c = true.
Proof. intros H. unfold is_word. now rewrite H. Qed.

(** *** [split] *)

Lemma split_not_nil sep s : split sep s <> [].
Proof.
  destruct s as [|c s]; simpl; [discriminate|].
  destruct (Ascii.eqb c sep); [discriminate|].
  destruct (split sep s); discriminate.
Qed.

Lemma split_plain s :
  all_chars no_slash s = true -> split slash s = [s].
Proof.
  induction s as [|c s IH]; simpl; [reflexivity|].
  intros H. apply andb_true_iff in H as [Hc Hs].
  unfold no_slash in Hc. apply negb_true_iff in Hc. rewrite Hc.
  now rewrite (IH Hs).
Qed.

Lemma split_app_slash a b :
  all_chars no_slash a = true ->
  split slash (a ++ String slash b) = a :: split slash b.
Proof.
  induction a as [|c a IH]; simpl; intros H.
  - reflexivity.
  - apply andb_true_iff in H as [Hc Hs].
    unfold no_slash in Hc. apply negb_true_iff in Hc. rewrite Hc.
    now rewrite (IH Hs).
Qed.

(** Joining with slashes segments that hold none and splitting again gives
    the segments back. *)
Lemma split_concat (seg : string) (segs : list string) :
  Forall (fun s => all_chars no_slash s = true) (seg :: segs) ->
  split slash (String.concat "/" (seg :: segs)) = seg :: segs.
Proof.
  revert seg. induction segs as [|s segs IH]; intros seg H.
  - simpl. apply split_plain. now inversion H.
  - inversion H as [|? ? Hseg Hrest]; subst.
    change (String.concat "/" (seg :: s :: segs))
      with (seg ++ String slash (String.concat "/" (s :: segs))).
    rewrite split_app_slash by assumption.
    now rewrite IH.
Qed.

(** *** [strip] *)

Lemma rstrip_cons c s :
  is_space c = false -> rstrip (String c s) = String c (rstrip s).
Proof. intros H. simpl. rewrite H. now destruct (rstrip s). Qed.

Lemma rstrip_app_cons a c s :
  is_space c = false -> rstrip (a ++ String c s) = a ++ String c (rstrip s).
Proof.
  intros H. induction a as [|x a IH]; simpl.
  - rewrite H. now destruct (rstrip s).
  - rewrite IH. now destruct a.
Qed.

Lemma lstrip_cons c s : is_space c = false -> lstrip (String c s) = String c s.
Proof. intros H. simpl. now rewrite H. Qed.

(** *** [re_split] *)

Lemma re_split_from_not_nil b s : re_split_from b s <> [].
Proof.
  revert b. induction s as [|c s IH]; intros b; simpl; [discriminate|].
  destruct (is_sep c).
  - destruct b; [apply IH | discriminate].
  - destruct (re_split_from false s); discriminate.
Qed.

Lemma re_split_from_plain b s :
  all_chars no_sep s = true -> re_split_from b s = [s].
Proof.
  revert b. induction s as [|c s IH]; intros b H; simpl; [reflexivity|].
  simpl in H. apply andb_true_iff in H as [Hc Hs].
  unfold no_sep in Hc. apply negb_true_iff in Hc. rewrite Hc.
  now rewrite (IH false Hs).
Qed.

Lemma re_split_false_app a c r :
  all_chars no_sep a = true -> is_sep c = true ->
  re_split_from false (a ++ String c r) = a :: re_split_from true r.
Proof.
  intros Ha Hc. induction a as [|x a IH]; simpl.
  - now rewrite Hc.
  - simpl in Ha. apply andb_true_iff in Ha as [Hx Ha].
    unfold no_sep in Hx. apply negb_true_iff in Hx. rewrite Hx.
    now rewrite (IH Ha).
Qed.

Lemma re_split_true_sep c r :
  is_sep c = true -> re_split_from true (String c r) = re_split_from true r.
Proof. intros Hc. simpl. now rewrite Hc. Qed.

Lemma re_split_true_app a c r :
  a <> "" -> all_chars no_sep a = true -> is_sep c = true ->
  re_split_from true (a ++ String c r) = a :: re_split_from true r.
Proof.
  intros Hne Ha Hc. destruct a as [|x a]; [congruence|].
  pose proof (re_split_false_app (String x a) c r Ha Hc) as H.
  simpl in Ha. apply andb_true_iff in Ha as [Hx _].
  unfold no_sep in Hx. apply negb_true_iff in Hx.
  simpl in *. now rewrite Hx in *.
Qed.

(** *** [re_search] *)

Lemma take_while_all p s : all_chars p s = true -> take_while p s = s.
Proof.
  induction s as [|c s IH]; simpl; [reflexivity|].
  intros H. apply andb_true_iff in H as [Hc Hs].
  now rewrite Hc, (IH Hs).
Qed.

Lemma match_id_colon i :
  is_id i = true -> match_id (String colon i) = Some i.
Proof.
  destruct i as [|u ds]; simpl; [discriminate|].
  intros H. apply andb_true_iff in H as [H Hds].
  apply andb_true_iff in H as [Hu Hne].
  rewrite Hu. simpl. rewrite (take_while_all _ _ Hds).
  destruct ds; [discriminate | reflexivity].
Qed.

Lemma match_word_colon acc i : match_word acc (String colon i) = None.
Proof. reflexivity. Qed.

Lemma match_word_kind k : forall acc i,
  is_kind k = true -> is_id i = true ->
  match_word acc (k ++ String colon i) = Some (acc ++ k, i).
Proof.
  induction k as [|c k IH]; intros acc i Hk Hi; [discriminate|].
  unfold is_kind in Hk. simpl in Hk.
  apply andb_true_iff in Hk as [Hc Hk].
  cbn [append match_word]. rewrite Hc.
  destruct k as [|c' k].
  - cbn [append]. rewrite match_word_colon, (match_id_colon i Hi). reflexivity.
  - rewrite IH; [|unfold is_kind; simpl; exact Hk|exact Hi].
    now rewrite append_assoc.
Qed.

Lemma re_search_unfold s :
  re_search s =
  match match_word "" s with
  | Some r => Some r
  | None => match s with
            | String _ s' => re_search s'
            | EmptyString => None
            end
  end.
Proof. destruct s; reflexivity. Qed.

Lemma re_search_kind_id k i :
  is_kind k = true -> is_id i = true ->
  re_search (k ++ String colon i) = Some (k, i).
Proof.
  intros Hk Hi.
  assert (H : match_word "" (k ++ String colon i) = Some (k, i))
    by (now rewrite match_word_kind).
  now rewrite re_search_unfold, H.
Qed.

Lemma match_word_acc s : forall acc k i,
  match_word acc s = Some (k, i) -> acc <> "" \/ s <> "" -> k <> "".
Proof.
  induction s as [|c s IH]; intros acc k i H Hne; simpl in H; [discriminate|].
  destruct (is_word c); [|discriminate].
  destruct (match_word (acc ++ String c "") s) as [[k' i']|] eqn:E.
  - inversion H; subst. apply (IH _ _ _ E). left. now destruct acc.
  - destruct (match_id s); [|discriminate].
    inversion H; subst. now destruct acc.
Qed.

(** The first group of a match is never the empty string. *)
Lemma re_search_kind_not_empty s k i :
  re_search s = Some (k, i) -> k <> "".
Proof.
  induction s as [|c s IH]; rewrite re_search_unfold; [discriminate|].
  destruct (match_word "" (String c s)) as [[k' i']|] eqn:E.
  - intros H; inversion H; subst.
    apply (match_word_acc _ _ _ _ E). right. discriminate.
  - exact IH.
Qed.

End PyStrFacts.

(** ** The hint decoder on well-formed input *)

Module HintFacts.
Import PyStr HintForm PyStrFacts.

Lemma plain_no_sep s : all_chars plain s = true -> all_chars no_sep s = true.
Proof.
  apply all_chars_weaken. intros c H. now apply andb_true_iff in H as [H _].
Qed.

Lemma plain_no_slash s : all_chars plain s = true -> all_chars no_slash s = true.
Proof.
  apply all_chars_weaken. intros c H. now apply andb_true_iff in H as [_ H].
Qed.

Lemma word_plain s : all_chars is_word s = true -> all_chars plain s = true.
Proof.
  apply all_chars_weaken. intros c H. unfold plain, no_sep, no_slash.
  now rewrite (word_not_sep c H), (word_not_slash c H).
Qed.

Lemma id_word i : is_id i = true -> all_chars is_word i = true.
Proof.
  destruct i as [|u ds]; simpl; [discriminate|].
  intros H. apply andb_true_iff in H as [H Hds].
  apply andb_true_iff in H as [Hu _].
  rewrite (upper_is_word u Hu). simpl.
  revert Hds. apply all_chars_weaken, digit_is_word.
Qed.

Section Segment.
Variable p : string * string.
Hypothesis wf : wf_pair p = true.

Let name_ne : fst p <> "".
Proof.
  unfold wf_pair, wf_name in wf.
  apply andb_true_iff in wf as [H _]. apply andb_true_iff in H as [H _].
  apply negb_true_iff in H. now apply String.eqb_neq.
Qed.

Let name_plain : all_chars plain (fst p) = true.
Proof.
  unfold wf_pair, wf_name in wf.
  apply andb_true_iff in wf as [H _]. now apply andb_true_iff in H as [_ H].
Qed.

Let lang_plain : all_chars plain (snd p) = true.
Proof.
  unfold wf_pair, wf_lang in wf.
  apply andb_true_iff in wf as [_ H]. now apply andb_true_iff in H as [H _].
Qed.

Let lang_stripped : rstrip (snd p) = snd p.
Proof.
  unfold wf_pair, wf_lang in wf.
  apply andb_true_iff in wf as [_ H]. apply andb_true_iff in H as [_ H].
  now apply String.eqb_eq.
Qed.

Lemma encode_pair_no_slash : all_chars no_slash (encode_pair p) = true.
Proof.
  unfold encode_pair, q. rewrite !all_chars_app.
  rewrite !(plain_no_slash _ name_plain), !(plain_no_slash _ lang_plain).
  reflexivity.
Qed.

(** The fields of a segment: what stands before the first quote, the
    name, the language. *)
Lemma re_split_segment a :
  all_chars no_sep a = true ->
  re_split (a ++ encode_pair p) = [a; fst p; snd p].
Proof.
  intros Ha. unfold re_split, encode_pair, q.
  change (a ++ String dquote "" ++ fst p ++ String dquote "" ++ "@" ++ snd p)
    with (a ++ String dquote (fst p ++ String dquote (String "@" (snd p)))).
  rewrite re_split_false_app by (assumption || reflexivity).
  rewrite re_split_true_app
    by (try assumption; try reflexivity; now apply plain_no_sep).
  rewrite re_split_true_sep by reflexivity.
  now rewrite re_split_from_plain by (now apply plain_no_sep).
Qed.

Lemma rstrip_segment a : rstrip (a ++ encode_pair p) = a ++ encode_pair p.
Proof.
  unfold encode_pair, q.
  replace (a ++ String dquote "" ++ fst p ++ String dquote "" ++ "@" ++ snd p)
    with ((a ++ String dquote "" ++ fst p ++ String dquote "") ++ String "@" (snd p))
    by (now rewrite !append_assoc).
  rewrite rstrip_app_cons by reflexivity.
  now rewrite lang_stripped.
Qed.

Lemma strip_segment a :
  all_chars is_word a = true ->
  strip (a ++ encode_pair p) = a ++ encode_pair p.
Proof.
  intros Ha. unfold strip.
  replace (lstrip (a ++ encode_pair p)) with (a ++ encode_pair p).
  - apply rstrip_segment.
  - destruct a as [|c a].
    + reflexivity.
    + simpl in Ha. apply andb_true_iff in Ha as [Hc _].
      cbn [append]. now rewrite lstrip_cons by (now apply word_not_space).
Qed.

End Segment.

(** A round of the loop on a part of three fields, once the kind is
    known and before. *)
Lemma parse_part_next dt di acc part a n l :
  re_split (strip part) = [a; n; l] -> py_not dt = false ->
  parse_part (dt, di, acc) part = inr (dt, di, (acc ++ [(n, l)])%list).
Proof. intros H Hn. unfold parse_part. now rewrite H, Hn. Qed.

Lemma parse_part_first di acc part a n l k i :
  re_split (strip part) = [a; n; l] -> re_search a = Some (k, i) ->
  parse_part (None, di, acc) part = inr (Some k, Some i, (acc ++ [(n, l)])%list).
Proof.
  intros H Hs. unfold parse_part. rewrite H.
  cbn [py_not list_get nth_error]. now rewrite Hs.
Qed.

(** The segments after the first one add their pairs in order. *)
Lemma parse_parts_tail kind id ps : forall acc,
  kind <> "" ->
  forallb wf_pair ps = true ->
  parse_parts (Some kind, id, acc) (map encode_pair ps)
  = inr (Some kind, id, (acc ++ ps)%list).
Proof.
  induction ps as [|p ps IH]; intros acc Hk Hps; cbn [map parse_parts].
  - now rewrite app_nil_r.
  - simpl in Hps. apply andb_true_iff in Hps as [Hp Hps].
    pose proof (strip_segment p Hp "" eq_refl) as Hs.
    pose proof (re_split_segment p Hp "" eq_refl) as Hr.
    cbn [append] in Hs, Hr.
    rewrite (parse_part_next _ _ _ _ "" (fst p) (snd p))
      by (rewrite ?Hs; try exact Hr; simpl; now apply String.eqb_neq).
    rewrite IH by assumption.
    rewrite <- app_assoc. destruct p; reflexivity.
Qed.

Lemma kind_not_empty kind : is_kind kind = true -> kind <> "".
Proof.
  unfold is_kind. intros H. apply andb_true_iff in H as [H _].
  apply negb_true_iff in H. now apply String.eqb_neq.
Qed.

Lemma marker_word kind id :
  is_kind kind = true -> is_id id = true ->
  all_chars is_word kind = true /\ all_chars is_word id = true.
Proof.
  intros Hk Hi. split; [|now apply id_word].
  unfold is_kind in Hk. now apply andb_true_iff in Hk as [_ Hk].
Qed.

Lemma parse_encode kind id p ps :
  is_kind kind = true -> is_id id = true ->
  forallb wf_pair (p :: ps) = true ->
  parse (encode kind id p ps) = inr (Some kind, Some id, p :: ps).
Proof.
  intros Hk Hi Hps. simpl in Hps. apply andb_true_iff in Hps as [Hp Hps].
  destruct (marker_word kind id Hk Hi) as [Wk Wi].
  unfold parse, encode.
  rewrite split_concat.
  2:{ constructor.
      - change (kind ++ ":" ++ id ++ encode_pair p)
          with (kind ++ String colon (id ++ encode_pair p)).
        rewrite all_chars_app. cbn [all_chars]. rewrite all_chars_app.
        rewrite (plain_no_slash _ (word_plain _ Wk)),
                (plain_no_slash _ (word_plain _ Wi)),
                (encode_pair_no_slash p Hp).
        reflexivity.
      - apply Forall_forall. intros s Hs. apply in_map_iff in Hs as [p' [<- Hin]].
        apply encode_pair_no_slash.
        rewrite forallb_forall in Hps. now apply Hps. }
  cbn [parse_parts].
  replace (kind ++ ":" ++ id ++ encode_pair p)
    with ((kind ++ String colon id) ++ encode_pair p)
    by (now rewrite append_assoc).
  assert (Wm : all_chars no_sep (kind ++ String colon id) = true).
  { rewrite all_chars_app. cbn [all_chars].
    rewrite (plain_no_sep _ (word_plain _ Wk)), (plain_no_sep _ (word_plain _ Wi)).
    reflexivity. }
  assert (Hstrip : strip ((kind ++ String colon id) ++ encode_pair p)
                   = (kind ++ String colon id) ++ encode_pair p).
  { unfold strip.
    replace (lstrip ((kind ++ String colon id) ++ encode_pair p))
      with ((kind ++ String colon id) ++ encode_pair p).
    - now apply rstrip_segment.
    - destruct kind as [|c kind]; [discriminate|].
      simpl in Wk. apply andb_true_iff in Wk as [Hc _].
      cbn [append]. now rewrite lstrip_cons by (now apply word_not_space). }
  rewrite (parse_part_first _ _ _ (kind ++ String colon id) (fst p) (snd p) kind id)
    by (rewrite ?Hstrip; first [now apply re_split_segment | now apply re_search_kind_id]).
  cbn [app].
  rewrite (parse_parts_tail kind (Some id) ps [(fst p, snd p)]
             (kind_not_empty kind Hk) Hps).
  destruct p; reflexivity.
Qed.

End HintFacts.

(** ** The decoder on any input *)

Module MalformedFacts.
Import PyStr HintForm PyStrFacts Malformed.

Lemma fields_not_nil part : fields part <> [].
Proof. apply re_split_from_not_nil. Qed.

(** A round of the loop when the kind is known. *)
Lemma parse_part_known dt di acc part :
  py_not dt = false ->
  (short part = true /\ exists e, parse_part (dt, di, acc) part = inl e)
  \/ (short part = false /\ exists n l,
        parse_part (dt, di, acc) part = inr (dt, di, (acc ++ [(n, l)])%list)).
Proof.
  intros Hn. unfold short, parse_part. fold (fields part). rewrite Hn.
  destruct (fields part) as [|a [|n [|l tl]]]; cbn.
  - left. eauto.
  - left. eauto.
  - left. eauto.
  - right. eauto.
Qed.

(** The first round of the loop. *)
Lemma parse_part_unknown di acc part :
  ((no_match (hd "" (fields part)) || short part = true)
   /\ exists e, parse_part (None, di, acc) part = inl e)
  \/ ((no_match (hd "" (fields part)) || short part = false)
      /\ exists k i n l, k <> "" /\
        parse_part (None, di, acc) part
        = inr (Some k, Some i, (acc ++ [(n, l)])%list)).
Proof.
  unfold short, no_match, parse_part. fold (fields part).
  pose proof (fields_not_nil part) as Hne.
  destruct (fields part) as [|a tl]; [congruence|].
  cbn [py_not list_get nth_error hd].
  destruct (re_search a) as [[k i]|] eqn:E.
  - pose proof (re_search_kind_not_empty _ _ _ E) as Hk.
    destruct tl as [|n [|l tl]]; cbn.
    + left. eauto.
    + left. eauto.
    + right. split; [reflexivity|]. exists k, i, n, l. auto.
  - left. split; [reflexivity|]. eauto.
Qed.

(** The rounds after the first. *)
Lemma parse_parts_known k di parts : forall acc,
  k <> "" ->
  (existsb short parts = true
   /\ exists e, parse_parts (Some k, di, acc) parts = inl e)
  \/ (existsb short parts = false
      /\ exists ps, length ps = length parts /\
        parse_parts (Some k, di, acc) parts = inr (Some k, di, (acc ++ ps)%list)).
Proof.
  intros acc Hk. revert acc.
  assert (Hn : py_not (Some k) = false) by (simpl; now apply String.eqb_neq).
  induction parts as [|part parts IH]; intros acc.
  - right. split; [reflexivity|]. exists []. now rewrite app_nil_r.
  - cbn [existsb parse_parts].
    destruct (parse_part_known (Some k) di acc part Hn)
      as [[Hs [e He]] | [Hs [n [l He]]]]; rewrite Hs, He.
    + left. eauto.
    + cbn [orb].
      destruct (IH (acc ++ [(n, l)])%list) as [[Hx [e Hp]] | [Hx [ps [Hlen Hp]]]].
      * left. eauto.
      * right. split; [assumption|]. exists ((n, l) :: ps). split.
        -- simpl. now rewrite Hlen.
        -- rewrite Hp. now rewrite <- app_assoc.
Qed.

(** [Hint.parse] either raises, on malformed input, or returns a kind, an
    identifier and one pair for each segment. *)
Lemma parse_cases raw :
  (malformed raw = true /\ exists e, parse raw = inl e)
  \/ (malformed raw = false /\ exists k i p ps,
        k <> "" /\ length (p :: ps) = length (split slash raw) /\
        parse raw = inr (Some k, Some i, p :: ps)).
Proof.
  unfold malformed, parse.
  pose proof (split_not_nil slash raw) as Hne.
  destruct (split slash raw) as [|part parts]; [congruence|].
  cbn [hd existsb parse_parts].
  destruct (parse_part_unknown None [] part)
    as [[Hs [e He]] | [Hs [k [i [n [l [Hk He]]]]]]]; rewrite He.
  - left. split; [|eauto].
    rewrite orb_assoc, Hs. reflexivity.
  - cbn [app].
    apply orb_false_iff in Hs as [Hm Hs]. rewrite Hm, Hs. cbn [orb].
    destruct (parse_parts_known k (Some i) parts [(n, l)] Hk)
      as [[Hx [e Hp]] | [Hx [ps [Hlen Hp]]]]; rewrite Hx, Hp.
    + left. eauto.
    + right. split; [reflexivity|]. exists k, i, (n, l), ps.
      split; [assumption|]. split; [simpl; now rewrite Hlen | reflexivity].
Qed.

Lemma Hint_init_cases raw :
  (malformed raw = true /\ exists e, Hint_init raw = inl e)
  \/ (malformed raw = false /\ exists h, Hint_init raw = inr h).
Proof.
  unfold Hint_init.
  destruct (parse_cases raw)
    as [[Hm [e He]] | [Hm [k [i [p [ps [Hk [Hlen He]]]]]]]]; rewrite He.
  - left. eauto.
  - right. cbn. eauto.
Qed.

End MalformedFacts.

(** ** Running the monad *)

Section RunFacts.

Context {W : Type} {PS : PageSession W}.

Local Open Scope list_scope.

Lemma bind_inr {A B : Type} (m : M W A) (k : A -> M W B) s a s' :
  m s = (inr a, s') -> bind m k s = k a s'.
Proof. intros H. unfold bind. now rewrite H. Qed.

Lemma bind_inl {A B : Type} (m : M W A) (k : A -> M W B) s e s' :
  m s = (inl e, s') -> bind m k s = (inl e, s').
Proof. intros H. unfold bind. now rewrite H. Qed.

Lemma bind_assoc {A B C : Type} (m : M W A) (f : A -> M W B) (g : B -> M W C) s :
  bind (bind m f) g s = bind m (fun a => bind (f a) g) s.
Proof. unfold bind. destruct (m s) as [[e|a] s']; reflexivity. Qed.

Lemma after_nil (s : St W) : after s [] = s.
Proof. destruct s. unfold after. simpl. now rewrite app_nil_r. Qed.

Lemma after_after (s : St W) a b : after (after s a) b = after s (a ++ b).
Proof. unfold after. simpl. now rewrite app_assoc. Qed.

Lemma emit_run ev (s : St W) : emit ev s = (inr tt, after s [ev]).
Proof. reflexivity. Qed.

(** *** Loops *)

Lemma for_app_next {A R : Type} (pre post : list A) (body : A -> M W (ctl R)) s s' :
  for_ pre body s = (inr Exhausted, s') ->
  for_ (pre ++ post) body s = for_ post body s'.
Proof.
  revert s. induction pre as [|x pre IH]; intros s H.
  - simpl in H. now inversion H.
  - cbn [for_ app] in *. unfold bind in *.
    destruct (body x s) as [[e|c] s1]; [discriminate|].
    destruct c; [now apply IH | discriminate | discriminate].
Qed.

Lemma for_still {A R : Type} (l : list A) (body : A -> M W (ctl R)) s :
  (forall x, In x l -> body x s = (inr Next, s)) ->
  for_ l body s = (inr Exhausted, s).
Proof.
  induction l as [|x l IH]; intros H; [reflexivity|].
  cbn [for_]. rewrite (bind_inr _ _ _ _ _ (H x (or_introl eq_refl))).
  apply IH. intros y Hy. apply H. now right.
Qed.

Lemma for_acc_app {A S : Type} (pre post : list A) (body : A -> S -> M W S) acc acc' s s' :
  for_acc pre body acc s = (inr acc', s') ->
  for_acc (pre ++ post) body acc s = for_acc post body acc' s'.
Proof.
  revert acc s. induction pre as [|x pre IH]; intros acc s H.
  - simpl in H. now inversion H.
  - cbn [for_acc app] in *. unfold bind in *.
    destruct (body x acc s) as [[e|a] s1]; [discriminate|].
    now apply IH.
Qed.

Lemma seq_split (i n : nat) :
  i < n -> seq 0 n = seq 0 i ++ i :: seq (S i) (n - S i).
Proof.
  intros H. replace n with (i + S (n - S i)) at 1 by lia.
  now rewrite seq_app.
Qed.

(** *** The comparison loop of the example path *)

Lemma line_round_same name (lines : list WebElement) expected_output i line (s : St W) :
  nth_error lines i = Some line ->
  nth_error expected_output i = Some (text line) ->
  line_round name lines expected_output i s = (inr Next, s).
Proof.
  intros Hl He. unfold line_round, bind, lift, list_get.
  rewrite Hl, He. now rewrite String.eqb_refl.
Qed.

Lemma line_round_differs name (lines : list WebElement) expected_output i line e (s : St W) :
  nth_error lines i = Some line ->
  nth_error expected_output i = Some e ->
  text line <> e ->
  line_round name lines expected_output i s
  = (inr Break,
     after s [Log WARNING (msg_line_mismatch name i (length expected_output) (text line) e);
              Log WARNING ("Test Case " ++ name ++ " failed")]).
Proof.
  intros Hl He Hne. unfold line_round, bind, lift, list_get.
  rewrite Hl, He. apply String.eqb_neq in Hne. rewrite Hne. cbn.
  unfold after. cbn. now rewrite <- app_assoc.
Qed.

Lemma compare_lines_first_mismatch name (lines : list WebElement) expected_output
    i line e (s : St W) :
  (forall j, j < i -> exists lj,
      nth_error lines j = Some lj /\ nth_error expected_output j = Some (text lj)) ->
  nth_error lines i = Some line ->
  nth_error expected_output i = Some e ->
  text line <> e ->
  compare_lines name lines expected_output s
  = (inr tt,
     after s [Log WARNING (msg_line_mismatch name i (length expected_output) (text line) e);
              Log WARNING ("Test Case " ++ name ++ " failed")]).
Proof.
  intros Hpre Hl He Hne.
  assert (Hi : i < length expected_output)
    by (apply nth_error_Some; congruence).
  unfold compare_lines, range_len. rewrite (seq_split i _ Hi).
  unfold bind at 1.
  rewrite (for_app_next _ _ _ s s).
  - cbn [for_]. unfold bind.
    now rewrite (line_round_differs name lines expected_output i line e s Hl He Hne).
  - apply for_still. intros j Hj. apply in_seq in Hj.
    destruct (Hpre j ltac:(lia)) as [lj [H1 H2]].
    now apply line_round_same with lj.
Qed.

Lemma compare_lines_all_match name (lines : list WebElement) expected_output (s : St W) :
  (forall j, j < length expected_output -> exists lj,
      nth_error lines j = Some lj /\ nth_error expected_output j = Some (text lj)) ->
  compare_lines name lines expected_output s
  = (inr tt, after s [Log INFO "Test Case %s finished successfully"]).
Proof.
  intros H. unfold compare_lines, range_len, bind.
  rewrite for_still; [reflexivity|].
  intros j Hj. apply in_seq in Hj.
  destruct (H j ltac:(lia)) as [lj [H1 H2]].
  now apply line_round_same with lj.
Qed.

Lemma firstn_nth_error {A : Type} (l l' : list A) n j :
  firstn n l' = firstn n l -> j < n -> nth_error l' j = nth_error l j.
Proof.
  intros H Hj.
  pose proof (nth_error_firstn n l' j) as H1.
  pose proof (nth_error_firstn n l j) as H2.
  apply Nat.ltb_lt in Hj. rewrite Hj in H1, H2.
  now rewrite <- H1, <- H2, H.
Qed.

(** *** The comparison loop of the hint path *)

Lemma py_in_spec (x : option string) (l : list string) :
  py_in x l = true <-> exists s, x = Some s /\ In s l.
Proof.
  destruct x as [s|]; simpl.
  - rewrite existsb_exists. split.
    + intros [y [Hy E]]. apply String.eqb_eq in E. subst y. eauto.
    + intros [y [E Hy]]. inversion E; subst. exists y. split; [assumption|].
      apply String.eqb_refl.
  - split; [discriminate|]. intros [s [E _]]. discriminate E.
Qed.

Lemma hint_round_matched name hints expected_hints i h e f nf (s : St W) :
  nth_error hints i = Some h ->
  nth_error expected_hints i = Some e ->
  py_in (database_id h) e = true ->
  hint_round name hints expected_hints i (f, nf) s
  = (inr (f ++ [h], nf),
     after s [Log INFO (msg_hint_ok name i (length expected_hints) h)]).
Proof.
  intros Hh He Hin. unfold hint_round, bind, lift, list_get.
  now rewrite Hh, He, Hin.
Qed.

Lemma hint_round_mismatched name hints expected_hints i h e0 e1 rest f nf (s : St W) :
  nth_error hints i = Some h ->
  nth_error expected_hints i = Some (e0 :: e1 :: rest) ->
  py_in (database_id h) (e0 :: e1 :: rest) = false ->
  hint_round name hints expected_hints i (f, nf) s
  = (inr (f, nf ++ [h]),
     after s [Log WARNING (msg_hint_wrong name i (length expected_hints) h e0 e1)]).
Proof.
  intros Hh He Hin. unfold hint_round, bind, lift, list_get.
  now rewrite Hh, He, Hin.
Qed.

(** A round on a position that both lists have is the position result of
    the specification. *)
Lemma hint_round_result name hints expected_hints i h e f nf (s : St W) :
  nth_error hints i = Some h ->
  nth_error expected_hints i = Some e ->
  2 <= length e ->
  let r := mkPosition i h e (py_in (database_id h) e) in
  hint_round name hints expected_hints i (f, nf) s
  = (inr (f ++ map actual (passing [r]), nf ++ map actual (failing [r])),
     after s [position_event name (length expected_hints) r]).
Proof.
  intros Hh He Hlen r. subst r. unfold passing, failing, position_event. cbn.
  destruct (py_in (database_id h) e) eqn:Hin; cbn.
  - rewrite app_nil_r. now apply hint_round_matched with e.
  - rewrite app_nil_r. destruct e as [|e0 [|e1 rest]]; simpl in Hlen; try lia.
    now apply hint_round_mismatched with rest.
Qed.

(** Whatever a round raises is an index out of range, and nothing was
    logged for the position. *)
Lemma hint_round_raises name hints expected_hints i fnf (s s' : St W) x :
  hint_round name hints expected_hints i fnf s = (inl x, s') ->
  x = list_index_error /\ s' = s.
Proof.
  destruct fnf as [f nf]. unfold hint_round, bind, lift, list_get.
  destruct (nth_error hints i) as [h|]; [|intros H; now inversion H].
  destruct (nth_error expected_hints i) as [e|]; [|intros H; now inversion H].
  destruct (py_in (database_id h) e); [discriminate|].
  destruct e as [|e0 [|e1 rest]]; cbn; intros H; now inversion H.
Qed.

Lemma hint_round_out_of_range name hints expected_hints i fnf (s : St W) :
  nth_error hints i = None ->
  hint_round name hints expected_hints i fnf s = (inl list_index_error, s).
Proof.
  intros Hh. destruct fnf as [f nf]. unfold hint_round, bind, lift, list_get.
  now rewrite Hh.
Qed.

Lemma nth_error_middle {A : Type} (pre : list A) x post :
  nth_error (pre ++ x :: post) (length pre) = Some x.
Proof. rewrite nth_error_app2 by lia. now rewrite Nat.sub_diag. Qed.

Lemma compare_from name : forall es hs pre_h pre_e f nf (s : St W),
  length pre_h = length pre_e ->
  length es <= length hs ->
  Forall (fun e => 2 <= length e) es ->
  let rs := results_from (length pre_e) hs es in
  for_acc (seq (length pre_e) (length es))
    (hint_round name (pre_h ++ hs) (pre_e ++ es)) (f, nf) s
  = (inr (f ++ map actual (passing rs), nf ++ map actual (failing rs)),
     after s (map (position_event name (length (pre_e ++ es))) rs)).
Proof.
  induction es as [|e es IH]; intros hs pre_h pre_e f nf s Hpre Hlen Hwf rs.
  - subst rs. destruct hs; cbn; now rewrite !app_nil_r, after_nil.
  - destruct hs as [|h hs]; [simpl in Hlen; lia|].
    subst rs. cbn [length seq for_acc results_from].
    inversion Hwf as [|? ? He Hes]; subst.
    rewrite (bind_inr _ _ _ _ _
               (hint_round_result name (pre_h ++ h :: hs) (pre_e ++ e :: es)
                  (length pre_e) h e f nf s
                  ltac:(rewrite <- Hpre; apply nth_error_middle)
                  (nth_error_middle pre_e e es) He)).
    specialize (IH hs (pre_h ++ [h]) (pre_e ++ [e])).
    rewrite !length_app in IH. cbn [length] in IH.
    rewrite !Nat.add_1_r, <- !app_assoc in IH. cbn [app] in IH.
    rewrite IH by (simpl in Hlen; first [lia | assumption]).
    rewrite after_after.
    unfold passing, failing. cbn [filter matched map].
    replace (length (pre_e ++ e :: es)) with (S (length pre_e) + length es)
      by (rewrite length_app; simpl; lia).
    destruct (py_in (database_id h) e); cbn [negb map app];
      now rewrite ?app_nil_r, <- ?app_assoc.
Qed.

Lemma compare_short name : forall es hs pre_h pre_e fnf (s : St W),
  length pre_h = length pre_e ->
  length hs < length es ->
  exists s',
    for_acc (seq (length pre_e) (length es))
      (hint_round name (pre_h ++ hs) (pre_e ++ es)) fnf s
    = (inl list_index_error, s').
Proof.
  induction es as [|e es IH]; intros hs pre_h pre_e fnf s Hpre Hlen.
  - simpl in Hlen. lia.
  - cbn [length seq for_acc]. unfold bind.
    destruct (hint_round name (pre_h ++ hs) (pre_e ++ e :: es) (length pre_e) fnf s)
      as [[x|fnf'] s1] eqn:E.
    + apply hint_round_raises in E as [-> ->]. eauto.
    + destruct hs as [|h hs].
      * rewrite hint_round_out_of_range in E; [discriminate|].
        rewrite app_nil_r. apply nth_error_None. lia.
      * specialize (IH hs (pre_h ++ [h]) (pre_e ++ [e]) fnf' s1).
        rewrite !length_app in IH. cbn [length] in IH.
        rewrite !Nat.add_1_r, <- !app_assoc in IH. cbn [app] in IH.
        apply IH; simpl in Hlen; lia.
Qed.

Lemma results_from_length : forall hints expected_hints i,
  length expected_hints <= length hints ->
  length (results_from i hints expected_hints) = length expected_hints.
Proof.
  induction hints as [|h hints IH]; intros [|e es] i H; simpl in *; try lia.
  rewrite IH; lia.
Qed.

Lemma results_from_nth : forall hints expected_hints i j h e,
  nth_error hints j = Some h ->
  nth_error expected_hints j = Some e ->
  nth_error (results_from i hints expected_hints) j
  = Some (mkPosition (i + j) h e (py_in (database_id h) e)).
Proof.
  induction hints as [|h0 hints IH]; intros [|e0 es] i j h e Hh He;
    destruct j; simpl in *; try discriminate.
  - inversion Hh; inversion He; subst. now rewrite Nat.add_0_r.
  - rewrite (IH es (S i) j h e Hh He). now rewrite Nat.add_succ_r.
Qed.

Lemma report_hints_status name (rs : list PositionResult) (s : St W) :
  report_hints name (map actual (failing rs)) s
  = (inr tt, after s [status_event name (overall rs)]).
Proof.
  unfold report_hints, overall.
  destruct (failing rs) as [|r l]; cbn; [reflexivity|].
  now rewrite length_map.
Qed.

Lemma overall_passed (rs : list PositionResult) :
  overall rs = Passed <-> forall r, In r rs -> matched r = true.
Proof.
  unfold overall, failing. split.
  - intros H r Hr. destruct (matched r) eqn:E; [reflexivity|].
    assert (Hin : In r (filter (fun r => negb (matched r)) rs))
      by (apply filter_In; now rewrite E).
    destruct (filter (fun r => negb (matched r)) rs); [contradiction|discriminate].
  - intros H.
    replace (filter (fun r => negb (matched r)) rs) with (@nil PositionResult);
      [reflexivity|].
    symmetry. induction rs as [|r rs IH]; [reflexivity|].
    cbn. rewrite (H r (or_introl eq_refl)). cbn. apply IH.
    intros r' Hr'. apply H. now right.
Qed.

Lemma overall_failed (rs : list PositionResult) :
  overall rs <> Passed -> overall rs = PartiallyFailed (length (failing rs)).
Proof. unfold overall. destruct (length (failing rs)); [congruence|reflexivity]. Qed.

(** *** Decoding the raw hints *)

(** The list comprehension that decodes the raw hints raises as soon as one
    of them is malformed, and leaves the state as it is. *)
Lemma decode_raises (unprocessed : list WebElement) (s : St W) :
  (exists el, In el unprocessed /\ Malformed.malformed (text el) = true) ->
  exists e,
    comprehension (fun unprocessed_hint => lift (Hint_init (text unprocessed_hint)))
      unprocessed s
    = (inl e, s).
Proof.
  induction unprocessed as [|x l IH]; intros [el [Hin Hm]]; [contradiction|].
  cbn [comprehension]. unfold bind at 1. unfold lift at 1.
  destruct (MalformedFacts.Hint_init_cases (text x)) as [[Hx [e He]] | [Hx [h He]]];
    rewrite He.
  - eauto.
  - destruct Hin as [<- | Hin]; [congruence|].
    destruct (IH (ex_intro _ el (conj Hin Hm))) as [e He'].
    exists e. unfold bind. now rewrite He'.
Qed.

(** *** The page loader *)

Lemma call_run {A : Type} ev (op : W -> Result A * W) (s : St W) :
  call ev op s = (fst (op (world s)), mkSt (snd (op (world s))) (trace s ++ [ev])).
Proof. unfold call. now destruct (op (world s)). Qed.

Lemma gets_app (a b : list Event) : gets (a ++ b) = gets a + gets b.
Proof. unfold gets. now rewrite filter_app, length_app. Qed.

(** An attempt requests the page once, whether it succeeds or not. *)
Lemma attempt_trace (self : QleverUiTester) (s s' : St W) r :
  attempt self s = (r, s') ->
  exists evs, trace s' = trace s ++ evs /\ gets evs = 1.
Proof.
  unfold attempt, bind, get, wait_presence. rewrite call_run.
  destruct (fst (driver_get (url self) (world s))) as [e|[]].
  - intros H. inversion H; subst. cbn. now exists [Get (url self)].
  - rewrite call_run. intros H. inversion H; subst. cbn.
    exists [Get (url self); WaitPresence (timeout_loading self) By_ID "query"].
    split; [now rewrite <- app_assoc | reflexivity].
Qed.

(** The [try] block of a round is an attempt followed by the record of its
    success. *)
Lemma round_body (self : QleverUiTester) (s : St W) :
  (get (url self) ;;
   wait_presence (timeout_loading self) By_ID "query" ;;
   log_info (msg_loaded self) ;;
   ret (Break (R := unit))) s
  = match attempt self s with
    | (inl e, s') => (inl e, s')
    | (inr _, s') => (inr Break, after s' [Log INFO (msg_loaded self)])
    end.
Proof.
  unfold attempt, bind.
  destruct (get (url self) s) as [[e|[]] s1]; [reflexivity|].
  destruct (wait_presence (timeout_loading self) By_ID "query" s1) as [[e|el] s2];
    reflexivity.
Qed.

Lemma round_loaded (self : QleverUiTester) i (s s' : St W) el :
  attempt self s = (inr el, s') ->
  init_page_round self i s = (inr Break, after s' [Log INFO (msg_loaded self)]).
Proof.
  intros H. unfold init_page_round, try_except. now rewrite round_body, H.
Qed.

Lemma round_retry (self : QleverUiTester) i (s s' : St W) e :
  attempt self s = (inl e, s') -> is_Exception e = true ->
  (i < num_retries self - 1)%Z ->
  init_page_round self i s = (inr Next, after s' [Log INFO (msg_retry self i e)]).
Proof.
  intros H He Hi. unfold init_page_round, try_except. rewrite round_body, H, He.
  apply Z.ltb_lt in Hi. now rewrite Hi.
Qed.

(** [done], when the prompt returns and the closing of the browser raises
    nothing but an [Exception]. *)
Lemma done_run (s : St W) line w1 :
  terminal_input (world s) = (inr line, w1) ->
  (forall e w2, driver_close w1 = (inl e, w2) -> is_Exception e = true) ->
  exists w2,
    done s = (inr tt, mkSt w2 (trace s ++ [Input; Log INFO "Shutting down..."; Close])).
Proof.
  intros Hin Hclose. unfold done, bind, input, close, log_info, try_except.
  rewrite call_run, Hin. cbn [fst snd emit world trace].
  rewrite call_run. cbn [fst snd world trace].
  destruct (driver_close w1) as [[e|[]] w2] eqn:E; cbn [fst snd].
  - rewrite (Hclose e w2 eq_refl). exists w2. unfold ret.
    now rewrite <- !app_assoc.
  - exists w2. now rewrite <- !app_assoc.
Qed.

Lemma round_abort (self : QleverUiTester) i (s s' : St W) e :
  attempt self s = (inl e, s') -> is_Exception e = true ->
  ~ (i < num_retries self - 1)%Z ->
  (forall w, exists line w', terminal_input w = (inr line, w')) ->
  (forall w e w', driver_close w = (inl e, w') -> is_Exception e = true) ->
  exists w2,
    init_page_round self i s
    = (inl (SystemExit 1), mkSt w2 (trace s' ++ abort_events self)).
Proof.
  intros H He Hi Hin Hclose.
  unfold init_page_round, try_except. rewrite round_body, H, He.
  apply Z.ltb_nlt in Hi. rewrite Hi.
  unfold bind at 1. unfold log_error at 1. rewrite emit_run.
  destruct (Hin (world (after s' [Log ERROR (msg_abort self)]))) as [line [w1 Hl]].
  destruct (done_run (after s' [Log ERROR (msg_abort self)]) line w1 Hl
              (fun e w2 => Hclose w1 e w2)) as [w2 Hd].
  exists w2. unfold bind. rewrite Hd. unfold sys_exit, raise, abort_events.
  cbn [after trace]. now rewrite <- app_assoc.
Qed.

Lemma range_split (k : nat) (n : Z) :
  (Z.of_nat k < n)%Z ->
  range n = range (Z.of_nat k) ++ Z.of_nat k :: map Z.of_nat (seq (S k) (Z.to_nat n - S k)).
Proof.
  intros H. unfold range. rewrite Nat2Z.id.
  rewrite (seq_split k (Z.to_nat n)) by lia.
  now rewrite map_app.
Qed.

(** Rounds that all ask for another round requested the page once each. *)
Lemma rounds_gets (self : QleverUiTester) : forall l (s s' : St W),
  for_ l (init_page_round self) s = (inr Exhausted, s') ->
  gets (trace s') = gets (trace s) + length l.
Proof.
  induction l as [|i l IH]; intros s s' H.
  - inversion H. cbn. lia.
  - cbn [for_] in H. unfold bind in H.
    destruct (init_page_round self i s) as [[e|c] s1] eqn:E; [discriminate|].
    destruct c; [|discriminate|discriminate].
    rewrite (IH _ _ H). cbn [length].
    enough (gets (trace s1) = gets (trace s) + 1) by lia.
    unfold init_page_round, try_except in E. rewrite round_body in E.
    destruct (attempt self s) as [[e|el] s2] eqn:Ea.
    + destruct (attempt_trace self s s2 _ Ea) as [evs [Ht Hg]].
      destruct (is_Exception e); [|discriminate].
      destruct (i <? num_retries self - 1)%Z.
      * inversion E; subst. cbn [after trace].
        rewrite Ht, !gets_app, Hg. cbn. lia.
      * unfold bind in E.
        destruct (log_error (msg_abort self) s2) as [[x|[]] s3]; [discriminate|].
        destruct (done s3) as [[x|[]] s4]; discriminate.
    + discriminate.
Qed.

(** The rounds from [k] on, when every attempt fails. *)
Lemma rounds_exhausted (self : QleverUiTester) :
  (forall s : St W, exists e s', attempt self s = (inl e, s') /\ is_Exception e = true) ->
  (forall w, exists line w', terminal_input w = (inr line, w')) ->
  (forall w e w', driver_close w = (inl e, w') -> is_Exception e = true) ->
  forall m k (s : St W),
    k + S m = Z.to_nat (num_retries self) ->
    exists s' evs,
      for_ (map Z.of_nat (seq k (S m))) (init_page_round self) s
      = (inl (SystemExit 1), s')
      /\ trace s' = trace s ++ evs ++ abort_events self
      /\ gets evs = S m.
Proof.
  intros Hfail Hin Hclose.
  induction m as [|m IH]; intros k s Hk.
  - destruct (Hfail s) as [e [s1 [Ha He]]].
    destruct (attempt_trace self s s1 _ Ha) as [evs [Ht Hg]].
    destruct (round_abort self (Z.of_nat k) s s1 e Ha He ltac:(lia) Hin Hclose)
      as [w2 Hr].
    cbn [seq map for_]. rewrite (bind_inl _ _ _ _ _ Hr).
    eexists. exists evs. split; [reflexivity|].
    cbn [trace]. rewrite Ht. split; [now rewrite <- app_assoc | exact Hg].
  - destruct (Hfail s) as [e [s1 [Ha He]]].
    destruct (attempt_trace self s s1 _ Ha) as [evs [Ht Hg]].
    pose proof (round_retry self (Z.of_nat k) s s1 e Ha He ltac:(lia)) as Hr.
    change (seq k (S (S m))) with (k :: seq (S k) (S m)).
    cbn [map for_]. rewrite (bind_inr _ _ _ _ _ Hr).
    destruct (IH (S k) (after s1 [Log INFO (msg_retry self (Z.of_nat k) e)])
                ltac:(lia)) as [s' [evs' [Hrun [Ht' Hg']]]].
    exists s', (evs ++ [Log INFO (msg_retry self (Z.of_nat k) e)] ++ evs').
    split; [exact Hrun|]. split.
    + rewrite Ht'. cbn [after trace]. rewrite Ht. now rewrite <- !app_assoc.
    + rewrite !gets_app, Hg, Hg'. cbn. lia.
Qed.

End RunFacts.

(** ** Where [SystemExit] comes from *)

Section ExitFacts.

Context {W : Type} {PS : PageSession W}.
Hypothesis quiet : Quiet W.
Variable self : QleverUiTester.

Local Open Scope list_scope.

Lemma eba_ret {A : Type} (a : A) : exits_by_abort (W := W) self (ret a).
Proof. intros s r s' H c ->. discriminate H. Qed.

Lemma eba_emit ev : exits_by_abort (W := W) self (emit ev).
Proof. intros s r s' H c ->. discriminate H. Qed.

Lemma eba_lift {A : Type} (r : Result A) :
  raises_exit r = false -> exits_by_abort (W := W) self (lift r).
Proof.
  intros Hr s r' s' H c ->. inversion H; subst. discriminate Hr.
Qed.

Lemma eba_call {A : Type} ev (op : W -> Result A * W) :
  (forall w, raises_exit (fst (op w)) = false) -> exits_by_abort (W := W) self (call ev op).
Proof.
  intros Hop s r s' H c ->. rewrite call_run in H. inversion H as [[E1 E2]].
  specialize (Hop (world s)). rewrite E1 in Hop. discriminate Hop.
Qed.

Lemma eba_bind {A B : Type} (m : M W A) (k : A -> M W B) :
  exits_by_abort (W := W) self m -> (forall a, exits_by_abort (W := W) self (k a)) -> exits_by_abort (W := W) self (bind m k).
Proof.
  intros Hm Hk s r s' H c ->. unfold bind in H.
  destruct (m s) as [[e|a] s1] eqn:Em.
  - inversion H; subst. now apply (Hm _ _ _ Em).
  - now apply (Hk a _ _ _ H).
Qed.

Lemma eba_try {A : Type} catches (body : M W A) handler :
  exits_by_abort (W := W) self body -> (forall e, exits_by_abort (W := W) self (handler e)) ->
  exits_by_abort (W := W) self (try_except catches body handler).
Proof.
  intros Hb Hh s r s' H c ->. unfold try_except in H.
  destruct (body s) as [[e|a] s1] eqn:Eb.
  - destruct (catches e).
    + now apply (Hh e _ _ _ H).
    + inversion H; subst. now apply (Hb _ _ _ Eb).
  - discriminate H.
Qed.

Lemma eba_for {A R : Type} (l : list A) (body : A -> M W (ctl R)) :
  (forall x, exits_by_abort (W := W) self (body x)) -> exits_by_abort (W := W) self (for_ l body).
Proof.
  intros Hb. induction l as [|x l IH]; cbn [for_].
  - apply eba_ret.
  - apply eba_bind; [apply Hb|]. intros [| |r]; [exact IH | apply eba_ret..].
Qed.

Lemma eba_for_acc {A S : Type} (l : list A) (body : A -> S -> M W S) :
  (forall x acc, exits_by_abort (W := W) self (body x acc)) ->
  forall acc, exits_by_abort (W := W) self (for_acc l body acc).
Proof.
  intros Hb. induction l as [|x l IH]; intros acc; cbn [for_acc].
  - apply eba_ret.
  - apply eba_bind; [apply Hb | intros acc'; apply IH].
Qed.

Lemma eba_comprehension {A B : Type} (f : A -> M W B) (l : list A) :
  (forall x, exits_by_abort (W := W) self (f x)) -> exits_by_abort (W := W) self (comprehension f l).
Proof.
  intros Hf. induction l as [|x l IH]; cbn [comprehension].
  - apply eba_ret.
  - apply eba_bind; [apply Hf|]. intros y.
    apply eba_bind; [exact IH|]. intros ys. apply eba_ret.
Qed.

Lemma list_get_no_exit {A : Type} (l : list A) i : raises_exit (list_get l i) = false.
Proof. unfold list_get. now destruct (nth_error l i). Qed.

Lemma str_first_no_exit s : raises_exit (str_first s) = false.
Proof. now destruct s. Qed.

Lemma parse_part_no_exit st part : raises_exit (parse_part st part) = false.
Proof.
  destruct st as [[dt di] acc]. unfold parse_part.
  destruct (py_not dt).
  - destruct (PyStr.re_split (PyStr.strip part)) as [|a [|n [|l tl]]]; cbn;
      try reflexivity; destruct (PyStr.re_search a) as [[k i]|]; reflexivity.
  - destruct (PyStr.re_split (PyStr.strip part)) as [|a [|n [|l tl]]]; reflexivity.
Qed.

Lemma parse_parts_no_exit parts : forall st, raises_exit (parse_parts st parts) = false.
Proof.
  induction parts as [|p parts IH]; intros st; cbn [parse_parts]; [reflexivity|].
  pose proof (parse_part_no_exit st p) as H.
  destruct (parse_part st p) as [e|st']; [exact H | apply IH].
Qed.

Lemma Hint_init_no_exit raw : raises_exit (Hint_init raw) = false.
Proof.
  unfold Hint_init, parse.
  pose proof (parse_parts_no_exit (PyStr.split PyStr.slash raw) (None, None, [])) as H.
  destruct (parse_parts (None, None, []) (PyStr.split PyStr.slash raw))
    as [e|[[dt di] prs]]; [exact H|].
  now destruct prs.
Qed.

Ltac eba :=
  repeat first
    [ apply eba_ret | apply eba_emit
    | apply eba_lift; first [apply list_get_no_exit | apply str_first_no_exit
                            | apply Hint_init_no_exit]
    | apply eba_call; intros; apply quiet
    | apply eba_bind; [|intros ?]
    | apply eba_try; [|intros ?]
    | apply eba_for; intros ?
    | apply eba_for_acc; intros ? ?
    | apply eba_comprehension; intros ? ].

Lemma eba_sleep millis : exits_by_abort (W := W) self (sleep millis).
Proof. intros s r s' H c ->. discriminate H. Qed.

Lemma eba_done : exits_by_abort (W := W) self done.
Proof. unfold done, input, close, log_info. eba. Qed.

(** The last statements of the handler of [init_page]: here, and only here,
    [SystemExit] is raised. *)
Lemma eba_give_up :
  exits_by_abort (W := W) self (log_error (msg_abort self) ;; done ;; sys_exit (A := ctl unit) 1).
Proof.
  intros s r s' H c ->. unfold bind at 1 in H. unfold log_error in H.
  rewrite emit_run in H. unfold bind in H.
  destruct (done (after s [Log ERROR (msg_abort self)])) as [[e|[]] s1] eqn:Ed.
  - inversion H; subst. exact (eba_done _ _ _ Ed c eq_refl).
  - unfold sys_exit, raise in H. inversion H; subst.
    split; [reflexivity|].
    revert Ed. unfold done, bind, input, close, log_info, try_except.
    rewrite call_run.
    destruct (fst (terminal_input (world (after s [Log ERROR (msg_abort self)]))))
      as [e|line]; [discriminate|].
    cbn [emit]. rewrite call_run.
    match goal with |- context [driver_close ?w] =>
      destruct (fst (driver_close w)) as [e|[]] end.
    + destruct (is_Exception e); [|discriminate].
      intros X; inversion X; subst. cbn [trace after world].
      exists (trace s). unfold abort_events. now rewrite <- !app_assoc.
    + intros X; inversion X; subst. cbn [trace after world].
      exists (trace s). unfold abort_events. now rewrite <- !app_assoc.
Qed.

Lemma eba_init_page : exits_by_abort (W := W) self (init_page self).
Proof.
  unfold init_page. apply eba_bind; [|intros ?; apply eba_ret].
  apply eba_for. intros i. unfold init_page_round.
  apply eba_try.
  - unfold get, wait_presence, log_info. eba.
  - intros e. destruct (i <? num_retries self - 1)%Z.
    + unfold log_info. eba.
    + apply eba_give_up.
Qed.

Lemma eba_get_hints : exits_by_abort (W := W) self get_hints.
Proof.
  unfold get_hints, get_hints_round, hints_ready, find, find_all, log_info.
  apply eba_bind.
  - apply eba_for. intros i. apply eba_bind; [apply eba_sleep|]. intros _.
    apply eba_bind; [eba|]. intros [hw|]; [|apply eba_ret].
    apply eba_bind; [eba|]. intros hints.
    apply eba_bind.
    + apply eba_for. intros hint. apply eba_bind; [eba|]. intros c.
      destruct (negb (Ascii.eqb c PyStr.qmark)); apply eba_ret.
    + intros [| |hs]; apply eba_ret.
  - intros [| |hs]; eba.
Qed.

Lemma eba_compare_lines name lines expected_output :
  exits_by_abort (W := W) self (compare_lines (W := W) name lines expected_output).
Proof.
  unfold compare_lines, line_round, log_warning, log_info.
  apply eba_bind.
  - apply eba_for. intros i. apply eba_bind; [eba|]. intros line.
    apply eba_bind; [eba|]. intros e.
    destruct (negb (String.eqb (text line) e)); eba.
  - intros [| |r]; eba.
Qed.

Lemma eba_test_example test_case : exits_by_abort (W := W) self (test_example self test_case).
Proof.
  unfold test_example, find, find_all, click, log_warning, log_info.
  apply eba_bind; [eba|]. intros _.
  apply eba_bind; [eba|]. intros _.
  apply eba_bind; [apply eba_init_page|]. intros _.
  apply eba_bind; [eba|]. intros button.
  destruct (not_element button); [eba|].
  apply eba_bind; [eba|]. intros _.
  apply eba_bind; [eba|]. intros menu.
  destruct (not_element menu || negb (is_displayed menu)); [eba|].
  apply eba_bind; [eba|]. intros example.
  destruct (not_element example); [eba|].
  apply eba_bind; [eba|]. intros _.
  apply eba_bind; [eba|]. intros editor.
  apply eba_bind; [eba|]. intros lines.
  apply eba_compare_lines.
Qed.

Lemma eba_compare_hints name hints expected_hints :
  exits_by_abort (W := W) self (compare_hints (W := W) name hints expected_hints).
Proof.
  unfold compare_hints. apply eba_for_acc. intros i [f nf].
  unfold hint_round, log_info, log_warning.
  apply eba_bind; [eba|]. intros h.
  apply eba_bind; [eba|]. intros e.
  destruct (py_in (database_id h) e); eba.
Qed.

Lemma eba_test_hint test_case : exits_by_abort (W := W) self (test_hint self test_case).
Proof.
  unfold test_hint, collect_hints, send_to_textfield, find, send_keys, log_info.
  apply eba_bind.
  - apply eba_bind; [eba|]. intros _.
    apply eba_bind; [eba|]. intros _.
    apply eba_bind; [apply eba_init_page|]. intros _.
    apply eba_bind; [eba|]. intros _.
    apply eba_get_hints.
  - intros unprocessed. apply eba_bind; [eba|]. intros hints.
    apply eba_bind; [apply eba_compare_hints|]. intros r.
    unfold report_hints, log_warning, log_info. destruct (snd r); eba.
Qed.

Lemma eba_test : exits_by_abort (W := W) self (test self).
Proof.
  unfold test, test_examples, test_hints, log_info.
  apply eba_bind.
  - apply eba_for_acc. intros tc _. apply eba_test_example.
  - intros _. apply eba_bind; [|intros _; eba].
    apply eba_for_acc. intros tc _. apply eba_test_hint.
Qed.

Lemma eba_main : exits_by_abort (W := W) self (main self).
Proof.
  unfold main. apply eba_bind; [apply eba_test | intros _; apply eba_done].
Qed.

End ExitFacts.

(** ** Waiting for the hints, when every listed element has a text *)

Section WaitFacts.

Context {W : Type} {PS : PageSession W}.

Local Open Scope list_scope.

Lemma hint_check (all : list WebElement) el (s : St W) :
  has_text el = true ->
  (c <- lift (str_first (text el)) ;;
   if negb (Ascii.eqb c PyStr.qmark) then ret (Return all) else ret Next) s
  = (inr (if placeholder el then Next else Return all), s).
Proof.
  unfold has_text, placeholder, bind, lift.
  destruct (text el) as [|c t]; [discriminate|]. intros _. cbn [str_first].
  now destruct (Ascii.eqb c PyStr.qmark).
Qed.

Lemma hints_ready_from (all : list WebElement) : forall hints (s : St W),
  forallb has_text hints = true ->
  for_ hints (fun hint =>
    c <- lift (str_first (text hint)) ;;
    if negb (Ascii.eqb c PyStr.qmark) then ret (Return all) else ret Next) s
  = (inr (if ready hints then Returned all else Exhausted), s).
Proof.
  induction hints as [|el hints IH]; intros s Ht; [reflexivity|].
  cbn [forallb] in Ht. apply andb_true_iff in Ht as [Hel Ht].
  cbn [for_]. rewrite (bind_inr _ _ _ _ _ (hint_check all el s Hel)).
  unfold ready. cbn [existsb].
  destruct (placeholder el); cbn [negb orb].
  - apply (IH s Ht).
  - reflexivity.
Qed.

(** On an enumeration whose elements all have a text, the inner loop
    returns the whole enumeration when it is ready and falls through when
    it holds placeholders only. *)
Lemma hints_ready_run (hints : list WebElement) (s : St W) :
  forallb has_text hints = true ->
  hints_ready hints s = (inr (if ready hints then Returned hints else Exhausted), s).
Proof. apply hints_ready_from. Qed.

(** A poll at which the pop-up is there and lists [hints]. *)
Lemma get_hints_round_run i (s : St W) hint_window w2 hints w3 :
  find_element None By_XPATH "/html/body/ul" (time_sleep 500 (world s))
  = (inr hint_window, w2) ->
  find_elements (Some hint_window) By_CLASS_NAME "CodeMirror-hint" w2
  = (inr hints, w3) ->
  forallb has_text hints = true ->
  get_hints_round i s
  = (inr (if ready hints then Return hints else Next),
     mkSt w3 (trace s ++ poll_events hint_window)).
Proof.
  intros Hf Ha Ht.
  unfold get_hints_round, sleep, find, find_all, try_except.
  unfold bind at 1. rewrite call_run. cbn [fst snd].
  unfold bind at 1. unfold bind at 1. rewrite call_run. cbn [world trace].
  rewrite Hf. cbn [fst snd]. unfold ret at 1.
  unfold bind at 1. rewrite call_run. cbn [world trace]. rewrite Ha. cbn [fst snd].
  unfold bind. rewrite (hints_ready_run hints _ Ht).
  unfold poll_events. rewrite <- !app_assoc. cbn [app].
  now destruct (ready hints).
Qed.

(** A poll at which the pop-up is not there yet. *)
Lemma get_hints_round_waiting i (s : St W) e w2 :
  find_element None By_XPATH "/html/body/ul" (time_sleep 500 (world s)) = (inl e, w2) ->
  get_hints_round i s
  = (inr Next,
     mkSt w2 (trace s ++ [Sleep 500; FindElement None By_XPATH "/html/body/ul";
                          Log INFO "Waiting for autocompletion hints..."])).
Proof.
  intros Hf.
  unfold get_hints_round, sleep, find, try_except.
  unfold bind at 1. rewrite call_run. cbn [fst snd].
  unfold bind at 1. unfold bind at 1. rewrite call_run. cbn [world trace].
  rewrite Hf. cbn [fst snd].
  unfold bind, log_info, emit, ret. cbn [world trace].
  now rewrite <- !app_assoc.
Qed.

(** [get_hints] returns the whole enumeration of the first poll that is
    ready. *)
Lemma get_hints_first_ready k (s sk : St W) hint_window w2 hints w3 :
  k < 10 ->
  for_ (seq 0 k) get_hints_round s = (inr Exhausted, sk) ->
  find_element None By_XPATH "/html/body/ul" (time_sleep 500 (world sk))
  = (inr hint_window, w2) ->
  find_elements (Some hint_window) By_CLASS_NAME "CodeMirror-hint" w2
  = (inr hints, w3) ->
  forallb has_text hints = true ->
  ready hints = true ->
  get_hints s = (inr hints, mkSt w3 (trace sk ++ poll_events hint_window)).
Proof.
  intros Hk Hfirst Hf Ha Ht Hr.
  pose proof (get_hints_round_run k sk hint_window w2 hints w3 Hf Ha Ht) as Hround.
  rewrite Hr in Hround.
  unfold get_hints. rewrite (seq_split k 10 Hk).
  unfold bind at 1. rewrite (for_app_next _ _ _ _ _ Hfirst).
  cbn [for_]. now rewrite (bind_inr _ _ _ _ _ Hround).
Qed.

(** [get_hints] returns the empty list when no poll was ready. *)
Lemma get_hints_never_ready (s s' : St W) :
  for_ (seq 0 10) get_hints_round s = (inr Exhausted, s') ->
  get_hints s = (inr [], after s' [Log INFO "No hints were shown"]).
Proof. intros H. unfold get_hints. now rewrite (bind_inr _ _ _ _ _ H). Qed.

End WaitFacts.

(** ** The example path up to the dropdown *)

Section ExampleFacts.

Context {W : Type} {PS : PageSession W}.
Variable self : QleverUiTester.

Local Open Scope list_scope.

(** A missing examples button: the exception of the driver leaves
    [test_example]. *)
Lemma example_button_missing test_case (s s1 : St W) e w2 :
  init_page self (after s (example_header test_case)) = (inr tt, s1) ->
  find_element None By_XPATH xpath_examples_button (world s1) = (inl e, w2) ->
  test_example self test_case s
  = (inl e, mkSt w2 (trace s1 ++ [FindElement None By_XPATH xpath_examples_button])).
Proof.
  intros Hi Hf. unfold test_example.
  unfold bind at 1. unfold log_info at 1. rewrite emit_run.
  unfold bind at 1. unfold log_info at 1. rewrite emit_run.
  rewrite after_after. cbn [app].
  change [Log INFO "----------"; Log INFO ("Starting with Example Test " ++ ec_name test_case)]
    with (example_header test_case).
  rewrite (bind_inr _ _ _ _ _ Hi).
  apply bind_inl. unfold find. now rewrite call_run, Hf.
Qed.

(** A dropdown that is there and not displayed: two warnings, and the test
    case is over. *)
Lemma example_dropdown_hidden test_case (s s1 : St W) button w2 w3 menu w4 :
  init_page self (after s (example_header test_case)) = (inr tt, s1) ->
  find_element None By_XPATH xpath_examples_button (world s1) = (inr button, w2) ->
  element_click button w2 = (inr tt, w3) ->
  find_element None By_XPATH xpath_dropdown w3 = (inr menu, w4) ->
  is_displayed menu = false ->
  test_example self test_case s
  = (inr tt,
     mkSt w4 (trace s1 ++ [FindElement None By_XPATH xpath_examples_button;
                           Click button;
                           FindElement None By_XPATH xpath_dropdown;
                           Log WARNING ("Test Case " ++ ec_name test_case
                                        ++ ": No examples were shown");
                           Log WARNING (msg_button_failed (ec_name test_case))])).
Proof.
  intros Hi Hf Hc Hd Hhid. unfold test_example.
  unfold bind at 1. unfold log_info at 1. rewrite emit_run.
  unfold bind at 1. unfold log_info at 1. rewrite emit_run.
  rewrite after_after. cbn [app].
  change [Log INFO "----------"; Log INFO ("Starting with Example Test " ++ ec_name test_case)]
    with (example_header test_case).
  rewrite (bind_inr _ _ _ _ _ Hi).
  unfold bind at 1. unfold find at 1. rewrite call_run, Hf. cbn [fst snd not_element].
  unfold bind at 1. unfold click at 1. rewrite call_run. cbn [world trace].
  rewrite Hc. cbn [fst snd].
  unfold bind at 1. unfold find at 1. rewrite call_run. cbn [world trace].
  rewrite Hd. cbn [fst snd not_element orb]. rewrite Hhid. cbn [negb].
  unfold bind, log_warning, emit. cbn [world trace].
  now rewrite <- !app_assoc.
Qed.

End ExampleFacts.

(** ** What the decoder returns *)

Module DecoderFacts.
Import PyStr HintForm PyStrFacts Malformed MalformedFacts Decoded.

Lemma split_length sep s : length (split sep s) = S (occurrences sep s).
Proof.
  induction s as [|c s IH]; [reflexivity|].
  cbn [split occurrences]. destruct (Ascii.eqb c sep).
  - cbn [length]. now rewrite IH.
  - pose proof (split_not_nil sep s) as Hne.
    destruct (split sep s) as [|h t]; [congruence|].
    cbn [length] in *. now rewrite IH.
Qed.

Lemma all_take_while p s : all_chars p (take_while p s) = true.
Proof.
  induction s as [|c s IH]; simpl; [reflexivity|].
  destruct (p c) eqn:E; simpl; [now rewrite E | reflexivity].
Qed.

Lemma take_while_rest p s :
  exists rest, s = take_while p s ++ rest /\ starts_with p rest = false.
Proof.
  induction s as [|c s [rest [Hs Hr]]]; simpl.
  - exists "". now split.
  - destruct (p c) eqn:E.
    + exists rest. split; [simpl; now rewrite <- Hs | exact Hr].
    + exists (String c s). split; [reflexivity | exact E].
Qed.

Lemma match_id_sound s i :
  match_id s = Some i ->
  exists post,
    s = String colon (i ++ post) /\ is_id i = true /\ starts_with is_digit post = false.
Proof.
  destruct s as [|c [|u rest]]; simpl; try discriminate.
  destruct (Ascii.eqb c colon) eqn:Ec; [|discriminate].
  destruct (is_upper u) eqn:Eu; [|discriminate]. cbn [andb].
  destruct (take_while_rest is_digit rest) as [post [Hs Hp]].
  pose proof (all_take_while is_digit rest) as Hd.
  destruct (take_while is_digit rest) as [|d ds] eqn:Et; [discriminate|].
  intros H. inversion H; subst i. exists post.
  apply Ascii.eqb_eq in Ec. subst c.
  split; [simpl; now rewrite Hs|]. split; [|exact Hp].
  cbn [is_id]. rewrite Eu, Hd. reflexivity.
Qed.

Lemma match_word_sound s : forall acc k i,
  match_word acc s = Some (k, i) ->
  exists w post,
    s = w ++ String colon (i ++ post) /\ k = acc ++ w /\ w <> ""
    /\ all_chars is_word w = true /\ is_id i = true
    /\ starts_with is_digit post = false.
Proof.
  induction s as [|c s IH]; intros acc k i H; cbn [match_word] in H; [discriminate|].
  destruct (is_word c) eqn:Ec; [|discriminate].
  destruct (match_word (acc ++ String c "") s) as [[k' i']|] eqn:E.
  - inversion H; subst k' i'.
    destruct (IH _ _ _ E) as [w [post [Hs [Hk [Hw [Ha [Hi Hp]]]]]]].
    exists (String c w), post. repeat split; try assumption.
    + simpl. now rewrite Hs.
    + rewrite Hk, append_assoc. reflexivity.
    + discriminate.
    + simpl. now rewrite Ec.
  - destruct (match_id s) as [i'|] eqn:Ei; [|discriminate].
    inversion H; subst k i'.
    destruct (match_id_sound s i Ei) as [post [Hs [Hi Hp]]].
    exists (String c ""), post. repeat split; try assumption.
    + simpl. now rewrite Hs.
    + discriminate.
    + simpl. now rewrite Ec.
Qed.

Lemma match_id_complete i post :
  is_id i = true -> match_id (String colon (i ++ post)) <> None.
Proof.
  destruct i as [|u ds]; [discriminate|]. cbn [is_id].
  intros H. apply andb_true_iff in H as [H Hds].
  apply andb_true_iff in H as [Hu Hne].
  destruct ds as [|d ds]; [discriminate|].
  simpl in Hds. apply andb_true_iff in Hds as [Hd _].
  cbn [append match_id]. rewrite Hu. cbn [Ascii.eqb andb].
  replace (Ascii.eqb colon colon) with true by (symmetry; apply Ascii.eqb_refl).
  cbn [andb take_while]. rewrite Hd. discriminate.
Qed.

Lemma match_word_complete w : forall acc i post,
  w <> "" -> all_chars is_word w = true -> is_id i = true ->
  match_word acc (w ++ String colon (i ++ post)) <> None.
Proof.
  induction w as [|c w IH]; intros acc i post Hne Hw Hi; [congruence|].
  simpl in Hw. apply andb_true_iff in Hw as [Hc Hw].
  cbn [append match_word]. rewrite Hc.
  destruct w as [|c' w].
  - cbn [append]. rewrite match_word_colon.
    pose proof (match_id_complete i post Hi) as Hm.
    destruct (match_id (String colon (i ++ post))); [discriminate | congruence].
  - pose proof (IH (acc ++ String c "") i post ltac:(discriminate) Hw Hi) as Hm.
    destruct (match_word (acc ++ String c "") (String c' w ++ String colon (i ++ post)))
      as [[k' i']|]; [discriminate | congruence].
Qed.

Lemma kind_parts k : is_kind k = true -> k <> "" /\ all_chars is_word k = true.
Proof.
  unfold is_kind. intros H. apply andb_true_iff in H as [H1 H2].
  split; [|exact H2]. apply negb_true_iff in H1. now apply String.eqb_neq.
Qed.

Lemma ends_with_cons p c s : s <> "" -> ends_with p (String c s) = ends_with p s.
Proof. destruct s; [congruence | reflexivity]. Qed.

(** A match of [re_search] is an occurrence of the marker that takes every
    digit there is and starts where the run of word characters starts. *)
Lemma re_search_sound s : forall k i,
  re_search s = Some (k, i) ->
  exists pre post,
    s = pre ++ k ++ String colon (i ++ post) /\ is_kind k = true /\ is_id i = true
    /\ starts_with is_digit post = false /\ ends_with is_word pre = false.
Proof.
  induction s as [|c s IH]; intros k i H; rewrite re_search_unfold in H.
  - discriminate.
  - destruct (match_word "" (String c s)) as [[k' i']|] eqn:E.
    + inversion H; subst k' i'.
      destruct (match_word_sound _ _ _ _ E) as [w [post [Hs [Hk [Hw [Ha [Hi Hp]]]]]]].
      cbn [append] in Hk. subst k.
      exists "", post. repeat split; try assumption.
      unfold is_kind. rewrite Ha.
      apply String.eqb_neq in Hw. now rewrite Hw.
    + destruct (IH k i H) as [pre [post [Hs [Hk [Hi [Hp He]]]]]].
      exists (String c pre), post. repeat split; try assumption.
      * simpl. now rewrite Hs.
      * destruct pre as [|c' pre].
        -- cbn [ends_with]. destruct (is_word c) eqn:Ec; [|reflexivity].
           exfalso. cbn [append] in Hs. subst s.
           destruct (kind_parts k Hk) as [_ Hw].
           apply (match_word_complete (String c k) "" i post); try assumption.
           ++ discriminate.
           ++ simpl. now rewrite Ec.
        -- rewrite ends_with_cons by discriminate. exact He.
Qed.

(** Where the marker occurs, [re_search] finds a match. *)
Lemma re_search_complete pre : forall k i post,
  is_kind k = true -> is_id i = true ->
  re_search (pre ++ k ++ String colon (i ++ post)) <> None.
Proof.
  induction pre as [|c pre IH]; intros k i post Hk Hi; rewrite re_search_unfold.
  - cbn [append]. destruct (kind_parts k Hk) as [Hne Hw].
    pose proof (match_word_complete k "" i post Hne Hw Hi) as Hm.
    destruct (match_word "" (k ++ String colon (i ++ post))) as [r|];
      [discriminate | congruence].
  - cbn [append].
    destruct (match_word "" (String c (pre ++ k ++ String colon (i ++ post))));
      [discriminate | now apply IH].
Qed.

(** One round of the loop of [Hint.parse], in closed form. *)
Lemma parse_part_closed dt di acc part :
  parse_part (dt, di, acc) part
  = if py_not dt then
      match re_search (hd "" (fields part)) with
      | None => inl attribute_error
      | Some (k, i) =>
          if short part then inl list_index_error
          else inr (Some k, Some i, (acc ++ [name_language part])%list)
      end
    else if short part then inl list_index_error
         else inr (dt, di, (acc ++ [name_language part])%list).
Proof.
  unfold parse_part, short, name_language. fold (fields part).
  pose proof (fields_not_nil part) as Hne.
  destruct (fields part) as [|a [|n [|l tl]]]; [congruence| | |];
    destruct (py_not dt); cbn; try reflexivity;
    destruct (re_search a) as [[k i]|]; reflexivity.
Qed.

Lemma parse_parts_closed k di parts : forall acc,
  k <> "" ->
  parse_parts (Some k, di, acc) parts
  = if existsb short parts then inl list_index_error
    else inr (Some k, di, (acc ++ map name_language parts)%list).
Proof.
  intros acc Hk. revert acc.
  assert (Hn : py_not (Some k) = false) by (simpl; now apply String.eqb_neq).
  induction parts as [|part parts IH]; intros acc; cbn [parse_parts existsb map].
  - now rewrite app_nil_r.
  - rewrite parse_part_closed, Hn.
    destruct (short part); cbn [orb]; [reflexivity|].
    rewrite IH. now rewrite <- app_assoc.
Qed.

Lemma parse_closed raw :
  parse raw
  = match re_search (hd "" (fields (hd "" (split slash raw)))) with
    | None => inl attribute_error
    | Some (k, i) =>
        if existsb short (split slash raw) then inl list_index_error
        else inr (Some k, Some i, map name_language (split slash raw))
    end.
Proof.
  unfold parse. pose proof (split_not_nil slash raw) as Hne.
  destruct (split slash raw) as [|part parts]; [congruence|].
  cbn [parse_parts hd existsb map]. rewrite parse_part_closed. cbn [py_not].
  destruct (re_search (hd "" (fields part))) as [[k i]|] eqn:E; [|reflexivity].
  destruct (short part); cbn [orb]; [reflexivity|].
  rewrite parse_parts_closed by (now apply re_search_kind_not_empty with (s := hd "" (fields part)) (i := i)).
  reflexivity.
Qed.

(** *** White space around the segments *)

Lemma space_not_slash s : all_chars is_space s = true -> all_chars no_slash s = true.
Proof.
  apply all_chars_weaken.
  assert (H : forall c, implb (is_space c) (no_slash c) = true)
    by (apply forall_ascii; vm_compute; reflexivity).
  intros c Hc. specialize (H c). now rewrite Hc in H.
Qed.

Lemma lstrip_spaces s : all_chars is_space s = true -> lstrip s = "".
Proof.
  induction s as [|c s IH]; simpl; [reflexivity|].
  intros H. apply andb_true_iff in H as [Hc Hs]. now rewrite Hc, IH.
Qed.

Lemma rstrip_spaces s : all_chars is_space s = true -> rstrip s = "".
Proof.
  induction s as [|c s IH]; simpl; [reflexivity|].
  intros H. apply andb_true_iff in H as [Hc Hs]. now rewrite IH, Hc.
Qed.

Lemma lstrip_before before s :
  all_chars is_space before = true -> lstrip (before ++ s) = lstrip s.
Proof.
  induction before as [|c b IH]; simpl; [reflexivity|].
  intros H. apply andb_true_iff in H as [Hc Hs]. now rewrite Hc, IH.
Qed.

Lemma rstrip_behind s behind :
  all_chars is_space behind = true -> rstrip (s ++ behind) = rstrip s.
Proof.
  intros H. induction s as [|c s IH]; simpl.
  - now apply rstrip_spaces.
  - now rewrite IH.
Qed.

Lemma lstrip_app s behind :
  all_chars is_space behind = true ->
  rstrip (lstrip (s ++ behind)) = rstrip (lstrip s).
Proof.
  intros H. induction s as [|c s IH].
  - cbn [append lstrip]. rewrite (lstrip_spaces _ H). reflexivity.
  - cbn [append lstrip]. destruct (is_space c); [exact IH|].
    exact (rstrip_behind (String c s) behind H).
Qed.

Lemma strip_padded seg : well_padded seg = true -> strip (padded seg) = strip (core seg).
Proof.
  destruct seg as [[before c] behind]. unfold well_padded, padded, core, strip.
  intros H. apply andb_true_iff in H as [H Hb]. apply andb_true_iff in H as [Ha _].
  rewrite (lstrip_before _ _ Ha). now apply lstrip_app.
Qed.

Lemma padded_no_slash seg :
  well_padded seg = true ->
  all_chars no_slash (padded seg) = true /\ all_chars no_slash (core seg) = true.
Proof.
  destruct seg as [[before c] behind]. unfold well_padded, padded, core.
  intros H. apply andb_true_iff in H as [H Hb]. apply andb_true_iff in H as [Ha Hc].
  split; [|exact Hc].
  now rewrite !all_chars_app, (space_not_slash _ Ha), Hc, (space_not_slash _ Hb).
Qed.

Lemma parse_part_strip st p p' :
  strip p = strip p' -> parse_part st p = parse_part st p'.
Proof. intros H. destruct st as [[dt di] acc]. unfold parse_part. now rewrite H. Qed.

Lemma parse_parts_padded segs : forall st,
  forallb well_padded segs = true ->
  parse_parts st (map padded segs) = parse_parts st (map core segs).
Proof.
  induction segs as [|seg segs IH]; intros st H; [reflexivity|].
  cbn [forallb] in H. apply andb_true_iff in H as [Hs H].
  cbn [map parse_parts].
  rewrite (parse_part_strip st _ _ (strip_padded seg Hs)).
  destruct (parse_part st (core seg)); [reflexivity | now apply IH].
Qed.

End DecoderFacts.

(** ** More about the loops of a run *)

Section LoopFacts.

Context {W : Type} {PS : PageSession W}.

Local Open Scope list_scope.

Lemma for_ext {A R : Type} (l : list A) (body body' : A -> M W (ctl R)) :
  (forall x s, In x l -> body x s = body' x s) ->
  forall s, for_ l body s = for_ l body' s.
Proof.
  induction l as [|x l IH]; intros H s; [reflexivity|].
  cbn [for_]. unfold bind. rewrite (H x s (or_introl eq_refl)).
  destruct (body' x s) as [[e|c] s1]; [reflexivity|].
  destruct c; try reflexivity. apply IH. intros y s0 Hy. apply H. now right.
Qed.

Lemma for_acc_ext {A S : Type} (l : list A) (body body' : A -> S -> M W S) :
  (forall x acc s, In x l -> body x acc s = body' x acc s) ->
  forall acc s, for_acc l body acc s = for_acc l body' acc s.
Proof.
  induction l as [|x l IH]; intros H acc s; [reflexivity|].
  cbn [for_acc]. unfold bind. rewrite (H x acc s (or_introl eq_refl)).
  destruct (body' x acc s) as [[e|acc'] s1]; [reflexivity|].
  apply IH. intros y a s0 Hy. apply H. now right.
Qed.

(** Only the hints at the expected positions are read. *)
Lemma hint_round_prefix name hints hints' expected_hints i fnf (s : St W) :
  firstn (length expected_hints) hints' = firstn (length expected_hints) hints ->
  i < length expected_hints ->
  hint_round name hints' expected_hints i fnf s
  = hint_round name hints expected_hints i fnf s.
Proof.
  intros H Hi. destruct fnf as [f nf]. unfold hint_round, list_get.
  now rewrite (firstn_nth_error hints hints' _ i H Hi).
Qed.

Lemma line_round_prefix name (lines lines' : list WebElement) expected_output i (s : St W) :
  firstn (length expected_output) lines' = firstn (length expected_output) lines ->
  i < length expected_output ->
  line_round name lines' expected_output i s
  = line_round name lines expected_output i s.
Proof.
  intros H Hi. unfold line_round, list_get.
  now rewrite (firstn_nth_error lines lines' _ i H Hi).
Qed.

Lemma line_round_out_of_range name (lines : list WebElement) expected_output i (s : St W) :
  nth_error lines i = None ->
  line_round name lines expected_output i s = (inl list_index_error, s).
Proof. intros H. unfold line_round, bind, lift, list_get. now rewrite H. Qed.

(** A round of the hint comparison that returns has logged one record. *)
Lemma hint_round_returns name hints expected_hints i fnf fnf' (s s' : St W) :
  hint_round name hints expected_hints i fnf s = (inr fnf', s') ->
  exists ev, s' = after s [ev].
Proof.
  destruct fnf as [f nf]. unfold hint_round, bind, lift, list_get.
  destruct (nth_error hints i) as [h|]; [|discriminate].
  destruct (nth_error expected_hints i) as [e|]; [|discriminate].
  destruct (py_in (database_id h) e).
  - intros H. inversion H. eexists. reflexivity.
  - destruct e as [|e0 [|e1 rest]]; cbn; try discriminate.
    intros H. inversion H. eexists. reflexivity.
Qed.

(** The comparison loop reaches a position at which the round raises, and
    has logged at most one record for each position before it. *)
Lemma compare_reaches name hints expected_hints i :
  (forall fnf (s : St W),
      hint_round name hints expected_hints i fnf s = (inl list_index_error, s)) ->
  forall m k fnf (s : St W),
    k <= i < k + m ->
    exists s',
      for_acc (seq k m) (hint_round name hints expected_hints) fnf s
      = (inl list_index_error, s')
      /\ length (trace s') <= length (trace s) + (i - k).
Proof.
  intros Hi. induction m as [|m IH]; intros k fnf s Hk; [lia|].
  cbn [seq for_acc]. unfold bind.
  destruct (Nat.eq_dec k i) as [->|Hne].
  - rewrite Hi. exists s. split; [reflexivity | lia].
  - destruct (hint_round name hints expected_hints k fnf s) as [[x|fnf'] s1] eqn:E.
    + apply hint_round_raises in E as [-> ->]. exists s. split; [reflexivity | lia].
    + apply hint_round_returns in E as [ev ->].
      destruct (IH (S k) fnf' (after s [ev]) ltac:(lia)) as [s' [Hrun Hlen]].
      exists s'. split; [exact Hrun|].
      cbn [after trace] in Hlen. rewrite length_app in Hlen. cbn [length] in Hlen. lia.
Qed.

(** The rounds of the hint comparison when every position matches. *)
Lemma compare_all_matched name : forall es hs pre_h pre_e f nf (s : St W),
  length pre_h = length pre_e ->
  length es <= length hs ->
  (forall r, In r (results_from (length pre_e) hs es) -> matched r = true) ->
  for_acc (seq (length pre_e) (length es))
    (hint_round name (pre_h ++ hs) (pre_e ++ es)) (f, nf) s
  = (inr (f ++ firstn (length es) hs, nf),
     after s (map (position_event name (length (pre_e ++ es)))
                (results_from (length pre_e) hs es))).
Proof.
  induction es as [|e es IH]; intros hs pre_h pre_e f nf s Hpre Hlen Hall.
  - destruct hs; cbn; now rewrite !app_nil_r, after_nil.
  - destruct hs as [|h hs]; [simpl in Hlen; lia|].
    cbn [length seq for_acc results_from firstn].
    assert (Hm : py_in (database_id h) e = true)
      by (apply (Hall (mkPosition (length pre_e) h e (py_in (database_id h) e)));
          now left).
    rewrite (bind_inr _ _ _ _ _
               (hint_round_matched name (pre_h ++ h :: hs) (pre_e ++ e :: es)
                  (length pre_e) h e f nf s
                  ltac:(rewrite <- Hpre; apply nth_error_middle)
                  (nth_error_middle pre_e e es) Hm)).
    specialize (IH hs (pre_h ++ [h]) (pre_e ++ [e])).
    rewrite !length_app in IH. cbn [length] in IH.
    rewrite !Nat.add_1_r, <- !app_assoc in IH. cbn [app] in IH.
    rewrite IH.
    + rewrite after_after, <- app_assoc. cbn [app map].
      unfold position_event at 2. cbn [matched index actual]. rewrite Hm.
      replace (length (pre_e ++ e :: es)) with (S (length pre_e) + length es)
        by (rewrite length_app; simpl; lia).
      reflexivity.
    + lia.
    + simpl in Hlen. lia.
    + intros r Hr. apply Hall. cbn [results_from]. now right.
Qed.

End LoopFacts.

(** ** Every outcome of the poller and of the loader *)

Section OutcomeFacts.

Context {W : Type} {PS : PageSession W}.

Local Open Scope list_scope.

Lemma sleeps_app (a b : list Event) : sleeps (a ++ b) = sleeps a + sleeps b.
Proof. unfold sleeps. now rewrite filter_app, length_app. Qed.

(** The check of one element in the inner loop of [get_hints]. *)
Lemma hint_check_any (all : list WebElement) el (s : St W) :
  (c <- lift (str_first (text el)) ;;
   if negb (Ascii.eqb c PyStr.qmark) then ret (Return all) else ret Next) s
  = match text el with
    | EmptyString => (inl string_index_error, s)
    | String c _ =>
        (inr (if negb (Ascii.eqb c PyStr.qmark) then Return all else Next), s)
    end.
Proof.
  unfold bind, lift. destruct (text el) as [|c t]; cbn [str_first]; [reflexivity|].
  now destruct (negb (Ascii.eqb c PyStr.qmark)).
Qed.

Lemma hints_ready_outcome (all : list WebElement) : forall hints (s s' : St W) r,
  for_ hints (fun hint =>
    c <- lift (str_first (text hint)) ;;
    if negb (Ascii.eqb c PyStr.qmark) then ret (Return all) else ret Next) s
  = (r, s') ->
  s' = s /\ r <> inr Broken
  /\ (forall x, r = inr (Returned x) -> x = all /\ existsb real_hint hints = true).
Proof.
  induction hints as [|el hints IH]; intros s s' r H.
  - inversion H; subst.
    split; [reflexivity|]. split; [discriminate|]. intros x Hx. discriminate Hx.
  - cbn [for_] in H. unfold bind at 1 in H. rewrite hint_check_any in H.
    cbn [existsb]. unfold real_hint at 1.
    destruct (text el) as [|c t].
    + inversion H; subst.
      split; [reflexivity|]. split; [discriminate|]. intros x Hx. discriminate Hx.
    + destruct (negb (Ascii.eqb c PyStr.qmark)).
      * inversion H; subst.
        split; [reflexivity|]. split; [discriminate|].
        intros x Hx. inversion Hx. now split.
      * cbn [orb]. exact (IH _ _ _ H).
Qed.

(** A poll at which the pop-up is found, whatever its enumeration. *)
Lemma get_hints_round_found i (s : St W) hint_window w2 :
  find_element None By_XPATH "/html/body/ul" (time_sleep 500 (world s))
  = (inr hint_window, w2) ->
  get_hints_round i s
  = match find_elements (Some hint_window) By_CLASS_NAME "CodeMirror-hint" w2 with
    | (inl e, w3) => (inl e, mkSt w3 (trace s ++ poll_events hint_window))
    | (inr hints, w3) =>
        match hints_ready hints (mkSt w3 (trace s ++ poll_events hint_window)) with
        | (inl e, s4) => (inl e, s4)
        | (inr (Returned hs), s4) => (inr (Return hs), s4)
        | (inr _, s4) => (inr Next, s4)
        end
    end.
Proof.
  intros Hf.
  unfold get_hints_round, sleep, find, find_all, try_except.
  unfold bind at 1. rewrite call_run. cbn [fst snd].
  unfold bind at 1. unfold bind at 1. rewrite call_run. cbn [world trace].
  rewrite Hf. cbn [fst snd]. unfold ret at 1.
  unfold bind at 1. rewrite call_run. cbn [world trace].
  unfold poll_events. rewrite <- !app_assoc. cbn [app].
  destruct (find_elements (Some hint_window) By_CLASS_NAME "CodeMirror-hint" w2)
    as [[e|hints] w3]; cbn [fst snd]; [reflexivity|].
  unfold bind.
  destruct (hints_ready hints _) as [[e|[| |hs]] s4]; reflexivity.
Qed.

(** A poll sleeps once, never breaks the loop, and asks for a return only
    with an enumeration that holds a real hint. *)
Lemma get_hints_round_outcome i (s s' : St W) r :
  get_hints_round i s = (r, s') ->
  exists evs,
    trace s' = trace s ++ evs /\ sleeps evs = 1 /\ r <> inr Break
    /\ (forall hs, r = inr (Return hs) -> existsb real_hint hs = true).
Proof.
  destruct (find_element None By_XPATH "/html/body/ul" (time_sleep 500 (world s)))
    as [[e|hw] w2] eqn:Ef.
  - rewrite (get_hints_round_waiting i s e w2 Ef). intros H. inversion H; subst.
    eexists. cbn [trace]. repeat split; try reflexivity; discriminate.
  - rewrite (get_hints_round_found i s hw w2 Ef).
    destruct (find_elements (Some hw) By_CLASS_NAME "CodeMirror-hint" w2)
      as [[e|hints] w3].
    + intros H. inversion H; subst. exists (poll_events hw). cbn [trace].
      repeat split; try reflexivity; discriminate.
    + destruct (hints_ready hints (mkSt w3 (trace s ++ poll_events hw)))
        as [r4 s4] eqn:Eh.
      destruct (hints_ready_outcome hints hints _ _ _ Eh) as [-> [Hb Hr]].
      intros H. exists (poll_events hw).
      destruct r4 as [e|[| |hs]]; inversion H; subst; cbn [trace];
        repeat split; try reflexivity; try discriminate.
      intros hs' Hhs. inversion Hhs; subst.
      destruct (Hr hs' eq_refl) as [-> Hreal]. exact Hreal.
Qed.

(** The polls of [get_hints], whatever the page does. *)
Lemma polls_outcome : forall l (s s' : St W) r,
  for_ l get_hints_round s = (r, s') ->
  exists evs,
    trace s' = trace s ++ evs /\ sleeps evs <= length l
    /\ (r = inr Exhausted -> sleeps evs = length l)
    /\ r <> inr Broken
    /\ (forall hs, r = inr (Returned hs) -> existsb real_hint hs = true).
Proof.
  induction l as [|i l IH]; intros s s' r H.
  - inversion H; subst. exists []. rewrite app_nil_r.
    repeat split; try reflexivity; try discriminate; try (cbn; lia).
  - cbn [for_] in H. unfold bind in H.
    destruct (get_hints_round i s) as [r1 s1] eqn:E.
    destruct (get_hints_round_outcome i s s1 r1 E) as [evs [Ht [Hs [Hb Hr]]]].
    destruct r1 as [e|[| |hs]].
    + inversion H; subst. exists evs. cbn [length].
      repeat split; try assumption; try discriminate. lia.
    + destruct (IH _ _ _ H) as [evs' [Ht' [Hs' [Hx [Hb' Hr']]]]].
      exists (evs ++ evs'). rewrite Ht', Ht, sleeps_app, Hs, <- app_assoc. cbn [length].
      repeat split; try assumption; try lia.
      intros Hex. specialize (Hx Hex). lia.
    + congruence.
    + inversion H; subst. exists evs. cbn [length].
      repeat split; try assumption; try discriminate; try lia.
      intros hs' Hhs. inversion Hhs; subst. now apply Hr.
Qed.

(** The polls when the pop-up never comes up: whatever the lookup raises is
    swallowed. *)
Lemma polls_waiting :
  (forall w, exists e w',
      find_element None By_XPATH "/html/body/ul" w = (inl e, w')) ->
  forall n k (s : St W),
    exists w',
      for_ (seq k n) get_hints_round s
      = (inr Exhausted, mkSt w' (trace s ++ concat (repeat waiting_events n))).
Proof.
  intros Hf. induction n as [|n IH]; intros k s.
  - exists (world s). cbn. rewrite app_nil_r. now destruct s.
  - destruct (Hf (time_sleep 500 (world s))) as [e [w2 Hw]].
    pose proof (get_hints_round_waiting k s e w2 Hw) as Hr.
    cbn [seq for_]. rewrite (bind_inr _ _ _ _ _ Hr).
    destruct (IH (S k) (mkSt w2 (trace s ++ waiting_events))) as [w' Hrun].
    exists w'. unfold waiting_events in *. rewrite Hrun.
    cbn [trace repeat concat]. now rewrite <- !app_assoc.
Qed.

(** *** The loader *)

Lemma done_trace (s s' : St W) r :
  done s = (r, s') -> exists evs, trace s' = trace s ++ evs /\ gets evs = 0.
Proof.
  unfold done, bind, input, close, log_info, try_except.
  rewrite call_run.
  destruct (fst (terminal_input (world s))) as [e|line].
  - intros H. inversion H; subst. now exists [Input].
  - cbn [emit]. rewrite call_run. cbn [world trace].
    match goal with |- context [driver_close ?w] =>
      destruct (fst (driver_close w)) as [e|[]] end.
    + destruct (is_Exception e); intros H; inversion H; subst; cbn [trace];
        exists [Input; Log INFO "Shutting down..."; Close];
        (split; [now rewrite <- !app_assoc | reflexivity]).
    + intros H; inversion H; subst; cbn [trace].
      exists [Input; Log INFO "Shutting down..."; Close].
      split; [now rewrite <- !app_assoc | reflexivity].
Qed.

(** A round of [init_page] requests the page once; it breaks the loop only
    after the record of a successful load, and asks for another round only
    before the last one. *)
Lemma round_outcome (self : QleverUiTester) i (s s' : St W) r :
  init_page_round self i s = (r, s') ->
  exists evs,
    trace s' = trace s ++ evs /\ gets evs = 1
    /\ (r = inr Break -> exists evs0, evs = evs0 ++ [Log INFO (msg_loaded self)])
    /\ (r = inr Next -> (i < num_retries self - 1)%Z)
    /\ (forall x, r <> inr (Return x)).
Proof.
  unfold init_page_round, try_except. rewrite round_body.
  destruct (attempt self s) as [[e|el] s1] eqn:Ea;
    destruct (attempt_trace self s s1 _ Ea) as [evs [Ht Hg]].
  - destruct (is_Exception e).
    + destruct (i <? num_retries self - 1)%Z eqn:Ei.
      * intros H. inversion H; subst. exists (evs ++ [Log INFO (msg_retry self i e)]).
        cbn [after trace]. rewrite Ht, gets_app, Hg, <- app_assoc.
        repeat split; try reflexivity; try discriminate.
        intros _. now apply Z.ltb_lt.
      * unfold bind at 1. unfold log_error at 1. rewrite emit_run. unfold bind.
        destruct (done (after s1 [Log ERROR (msg_abort self)])) as [rd sd] eqn:Ed.
        destruct (done_trace _ _ _ Ed) as [evd [Htd Hgd]].
        cbn [after trace] in Htd.
        intros H.
        exists (evs ++ [Log ERROR (msg_abort self)] ++ evd).
        assert (Hs' : trace s' = trace sd /\ exists x, r = inl x).
        { destruct rd as [x|[]]; inversion H; subst; eauto. }
        destruct Hs' as [Hs' [x ->]]. rewrite Hs', Htd, Ht, !gets_app, Hg, Hgd.
        rewrite <- !app_assoc.
        repeat split; try reflexivity; try discriminate.
    + intros H. inversion H; subst. exists evs.
      repeat split; try assumption; discriminate.
  - intros H. inversion H; subst. exists (evs ++ [Log INFO (msg_loaded self)]).
    cbn [after trace]. rewrite Ht, gets_app, Hg, <- app_assoc.
    repeat split; try reflexivity; try discriminate.
    intros _. now exists evs.
Qed.

Lemma rounds_outcome (self : QleverUiTester) : forall l (s s' : St W) r,
  for_ l (init_page_round self) s = (r, s') ->
  exists evs,
    trace s' = trace s ++ evs /\ gets evs <= length l
    /\ (r = inr Broken -> exists evs0, evs = evs0 ++ [Log INFO (msg_loaded self)])
    /\ (r = inr Exhausted -> forall i, In i l -> (i < num_retries self - 1)%Z)
    /\ (forall x, r <> inr (Returned x)).
Proof.
  induction l as [|i l IH]; intros s s' r H.
  - inversion H; subst. exists []. rewrite app_nil_r.
    repeat split; try discriminate; try (cbn; lia); try (intros; contradiction).
  - cbn [for_] in H. unfold bind in H.
    destruct (init_page_round self i s) as [r1 s1] eqn:E.
    destruct (round_outcome self i s s1 r1 E) as [evs [Ht [Hg [Hb [Hn Hr]]]]].
    destruct r1 as [e|[| |x]].
    + inversion H; subst. exists evs. cbn [length].
      repeat split; try assumption; try discriminate. lia.
    + destruct (IH _ _ _ H) as [evs' [Ht' [Hg' [Hb' [Hn' Hr']]]]].
      exists (evs ++ evs'). rewrite Ht', Ht, gets_app, Hg, <- app_assoc. cbn [length].
      repeat split; try assumption; try lia.
      * intros Hbr. destruct (Hb' Hbr) as [evs0 ->]. exists (evs ++ evs0).
        now rewrite <- app_assoc.
      * intros Hex j [<-|Hj]; [now apply Hn | now apply Hn'].
    + inversion H; subst. exists evs. cbn [length].
      repeat split; try assumption; try discriminate; try lia.
      intros _. now apply Hb.
    + exfalso. now apply (Hr x).
Qed.

Lemma round_interrupted (self : QleverUiTester) i (s s1 : St W) e :
  attempt self s = (inl e, s1) -> is_Exception e = false ->
  init_page_round self i s = (inl e, s1).
Proof.
  intros H He. unfold init_page_round, try_except. now rewrite round_body, H, He.
Qed.

End OutcomeFacts.

(** ** A page that shows what is expected *)

Section PassFacts.

Context {W : Type} {PS : PageSession W}.

Local Open Scope list_scope.

Lemma Hint_init_encoded d :
  well_formed d = true -> Hint_init (encoded d) = inr (decoded d).
Proof.
  destruct d as [[[kind id] p] ps]. unfold well_formed, encoded, decoded.
  intros H. apply andb_true_iff in H as [H Hps]. apply andb_true_iff in H as [Hk Hi].
  unfold Hint_init. now rewrite (HintFacts.parse_encode kind id p ps Hk Hi Hps).
Qed.

(** The raw hints that are encodings of well-formed hints are all decoded. *)
Lemma decode_all : forall (els : list WebElement) ds (s : St W),
  map text els = map encoded ds ->
  forallb well_formed ds = true ->
  comprehension (fun unprocessed_hint => lift (Hint_init (text unprocessed_hint))) els s
  = (inr (map decoded ds), s).
Proof.
  induction els as [|el els IH]; intros [|d ds] s Ht Hwf; try discriminate.
  - reflexivity.
  - cbn [map] in Ht. inversion Ht as [[Hel Hels]].
    cbn [forallb] in Hwf. apply andb_true_iff in Hwf as [Hd Hwf].
    cbn [comprehension map]. unfold bind at 1. unfold lift at 1.
    rewrite Hel, (Hint_init_encoded d Hd).
    unfold bind. now rewrite (IH ds s Hels Hwf).
Qed.

Lemma decoded_id d : database_id (decoded d) = Some (id_of d).
Proof. now destruct d as [[[kind id] p] ps]. Qed.

Lemma all_accepted_matched : forall ds es k,
  all_accepted ds es = true ->
  length es <= length (map decoded ds)
  /\ forall r, In r (results_from k (map decoded ds) es) -> matched r = true.
Proof.
  induction ds as [|d ds IH]; intros [|e es] k H; cbn in *; try discriminate.
  - split; [lia | contradiction].
  - split; [lia | contradiction].
  - apply andb_true_iff in H as [He H].
    destruct (IH es (S k) H) as [Hlen Hall].
    split; [lia|]. intros r [<-|Hr]; [|now apply Hall].
    cbn [matched]. rewrite decoded_id. exact He.
Qed.

End PassFacts.

(** ** The test cases as wholes *)

Section CaseFacts.

Context {W : Type} {PS : PageSession W}.
Variable self : QleverUiTester.

Local Open Scope list_scope.

(** [test_example] is [example_lines] followed by the comparison of the
    lines it brought up. *)
Lemma test_example_split test_case (s : St W) :
  test_example self test_case s
  = (found <- example_lines self test_case ;;
     match found with
     | Some lines => compare_lines (ec_name test_case) lines (ec_lines test_case)
     | None => ret tt
     end) s.
Proof.
  unfold test_example, example_lines, bind.
  destruct (log_info "----------" s) as [[e0|[]] s0]; [reflexivity|].
  destruct (log_info ("Starting with Example Test " ++ ec_name test_case) s0)
    as [[e1|[]] s1]; [reflexivity|].
  destruct (init_page self s1) as [[e2|[]] s2]; [reflexivity|].
  destruct (find None By_XPATH xpath_examples_button s2) as [[e3|button] s3];
    [reflexivity|].
  cbn [not_element].
  destruct (click button s3) as [[e4|[]] s4]; [reflexivity|].
  destruct (find None By_XPATH xpath_dropdown s4) as [[e5|menu] s5]; [reflexivity|].
  cbn [not_element orb].
  destruct (negb (is_displayed menu)).
  - destruct (log_warning _ s5) as [[e6|[]] s6]; [reflexivity|].
    destruct (log_warning _ s6) as [[e7|[]] s7]; reflexivity.
  - destruct (find (Some menu) By_XPATH (xpath_example (ec_input test_case)) s5)
      as [[e6|example] s6]; [reflexivity|].
    cbn [not_element].
    destruct (click example s6) as [[e7|[]] s7]; [reflexivity|].
    destruct (find None By_XPATH xpath_editor s7) as [[e8|editor] s8]; [reflexivity|].
    destruct (find_all (Some editor) By_XPATH "//span[@role]" s8)
      as [[e9|lines] s9]; reflexivity.
Qed.

(** An example test case that reached the comparison ends as the
    comparison does. *)
Lemma test_example_compares test_case lines (s s' : St W) :
  example_lines self test_case s = (inr (Some lines), s') ->
  test_example self test_case s
  = compare_lines (ec_name test_case) lines (ec_lines test_case) s'.
Proof. intros H. rewrite test_example_split. now rewrite (bind_inr _ _ _ _ _ H). Qed.

(** The list comprehension of [test_hints] when every raw hint decodes. *)
Lemma decode_each : forall (unprocessed : list WebElement) hints (s : St W),
  Forall2 (fun el h => Hint_init (text el) = inr h) unprocessed hints ->
  comprehension (fun unprocessed_hint => lift (Hint_init (text unprocessed_hint)))
    unprocessed s
  = (inr hints, s).
Proof.
  intros unprocessed hints s H. revert s.
  induction H as [|el h els hs Hel _ IH]; intros s; [reflexivity|].
  cbn [comprehension]. unfold bind at 1. unfold lift at 1. rewrite Hel.
  unfold bind. now rewrite IH.
Qed.

(** The comparison loop when every position either matches or has an entry
    that holds the two elements printed on a mismatch. *)
Lemma compare_positions name : forall es hs pre_h pre_e f nf (s : St W),
  length pre_h = length pre_e ->
  length es <= length hs ->
  (forall r, In r (results_from (length pre_e) hs es) ->
             matched r = true \/ 2 <= length (expected r)) ->
  let rs := results_from (length pre_e) hs es in
  for_acc (seq (length pre_e) (length es))
    (hint_round name (pre_h ++ hs) (pre_e ++ es)) (f, nf) s
  = (inr (f ++ map actual (passing rs), nf ++ map actual (failing rs)),
     after s (map (position_event name (length (pre_e ++ es))) rs)).
Proof.
  induction es as [|e es IH]; intros hs pre_h pre_e f nf s Hpre Hlen Hok rs.
  - subst rs. destruct hs; cbn; now rewrite !app_nil_r, after_nil.
  - destruct hs as [|h hs]; [simpl in Hlen; lia|].
    subst rs. cbn [length seq for_acc results_from].
    assert (Hround :
      hint_round name (pre_h ++ h :: hs) (pre_e ++ e :: es) (length pre_e) (f, nf) s
      = (inr (f ++ map actual (passing [mkPosition (length pre_e) h e (py_in (database_id h) e)]),
              nf ++ map actual (failing [mkPosition (length pre_e) h e (py_in (database_id h) e)])),
         after s [position_event name (length (pre_e ++ e :: es))
                    (mkPosition (length pre_e) h e (py_in (database_id h) e))])).
    { assert (Hh : nth_error (pre_h ++ h :: hs) (length pre_e) = Some h)
        by (rewrite <- Hpre; apply nth_error_middle).
      pose proof (nth_error_middle pre_e e es) as He.
      destruct (Hok (mkPosition (length pre_e) h e (py_in (database_id h) e))
                  ltac:(cbn [results_from]; now left)) as [Hm|Hl]; cbn [matched expected] in *.
      - unfold passing, failing, position_event. cbn. rewrite Hm. cbn.
        rewrite app_nil_r. now apply hint_round_matched with e.
      - now apply hint_round_result. }
    rewrite (bind_inr _ _ _ _ _ Hround).
    specialize (IH hs (pre_h ++ [h]) (pre_e ++ [e])).
    rewrite !length_app in IH. cbn [length] in IH.
    rewrite !Nat.add_1_r, <- !app_assoc in IH. cbn [app] in IH.
    rewrite IH.
    + rewrite after_after.
      unfold passing, failing. cbn [filter matched map].
      replace (length (pre_e ++ e :: es)) with (S (length pre_e) + length es)
        by (rewrite length_app; simpl; lia).
      destruct (py_in (database_id h) e); cbn [negb map app];
        now rewrite ?app_nil_r, <- ?app_assoc.
    + lia.
    + simpl in Hlen. lia.
    + intros r Hr. apply Hok. cbn [results_from]. now right.
Qed.

(** A hint test case whose raw hints all decode, with a hint for every
    expected position: the positions are logged one by one, then the status
    that they give. *)
Lemma test_hint_reports test_case unprocessed hints (s s1 : St W) :
  collect_hints self test_case s = (inr unprocessed, s1) ->
  Forall2 (fun el h => Hint_init (text el) = inr h) unprocessed hints ->
  length (hc_hints test_case) <= length hints ->
  (forall r, In r (position_results hints (hc_hints test_case)) ->
             matched r = true \/ 2 <= length (expected r)) ->
  test_hint self test_case s
  = (inr tt,
     after s1
       (map (position_event (hc_name test_case) (length (hc_hints test_case)))
          (position_results hints (hc_hints test_case))
        ++ [status_event (hc_name test_case)
              (overall (position_results hints (hc_hints test_case)))])).
Proof.
  intros Hc Hd Hlen Hok. unfold test_hint.
  rewrite (bind_inr _ _ _ _ _ Hc).
  rewrite (bind_inr _ _ _ _ _ (decode_each unprocessed hints s1 Hd)).
  pose proof (compare_positions (hc_name test_case) (hc_hints test_case) hints
                [] [] [] [] s1 eq_refl Hlen Hok) as Hrun.
  cbn zeta in Hrun. cbn [length app] in Hrun.
  unfold compare_hints, range_len. rewrite (bind_inr _ _ _ _ _ Hrun).
  cbn [snd]. fold (position_results hints (hc_hints test_case)).
  rewrite report_hints_status, after_after. reflexivity.
Qed.

End CaseFacts.

(** * Properties of the decoder, the loader, the poller and the runner *)

Import PyStr HintForm Malformed.

(** C8 — for every well-formed encoded hint, that is a kind of word
    characters, a colon, an identifier made of an upper-case letter and
    digits, then a quoted non-empty name, an at sign and a language, and
    further quoted name and language segments each behind a slash,
    [Hint(text)] holds that kind, that identifier, the pairs of the segments
    in segment order, and the name of the first pair as primary name. *)
Theorem C8_parse_well_formed (kind id : string) (p : string * string)
    (ps : list (string * string)) :
  is_kind kind = true ->
  is_id id = true ->
  forallb wf_pair (p :: ps) = true ->
  parse (encode kind id p ps) = inr (Some kind, Some id, p :: ps)
  /\ Hint_init (encode kind id p ps)
     = inr (mkHint (encode kind id p ps) (Some kind) (Some id) (p :: ps) (fst p)).
Proof.
  intros Hk Hi Hps.
  pose proof (HintFacts.parse_encode kind id p ps Hk Hi Hps) as H.
  split; [exact H|].
  unfold Hint_init. now rewrite H.
Qed.

Lemma C8_parse_well_formed_witness :
  encode "wd" "Q42" ("A", "en") [("B", "de")]
  = "wd:Q42" ++ q ++ "A" ++ q ++ "@en/" ++ q ++ "B" ++ q ++ "@de"
  /\ Hint_init (encode "wd" "Q42" ("A", "en") [("B", "de")])
     = inr (mkHint (encode "wd" "Q42" ("A", "en") [("B", "de")])
              (Some "wd") (Some "Q42") [("A", "en"); ("B", "de")] "A").
Proof.
  split; [reflexivity|].
  apply (C8_parse_well_formed "wd" "Q42" ("A", "en") [("B", "de")]); reflexivity.
Defined.

(** C2 (as stated, refuted) — a hint whose first segment holds the marker
    behind its name and language has three fields in its only segment and a
    kind and identifier pattern in it, and still [Hint.parse] raises: the
    marker is looked for in the first field only. *)
Lemma C2_counterexample :
  spec_malformed marker_last = false
  /\ fields marker_last = [""; "Douglas Adams"; "en wd:Q42"]
  /\ re_search marker_last = Some ("wd", "Q42")
  /\ parse marker_last
     = inl (AttributeError "'NoneType' object has no attribute 'groups'")
  /\ ~ ((exists e, parse marker_last = inl e) <-> spec_malformed marker_last = true).
Proof.
  repeat split; try reflexivity.
  intros [H _].
  assert (E : spec_malformed marker_last = true) by (apply H; eexists; reflexivity).
  discriminate E.
Qed.

(** C2 (amended) — [Hint.parse], and with it [Hint(text)], raises exactly
    when the first field of the first segment (what stands before its first
    quote or at sign) holds no kind and identifier pattern, or when some
    segment, once trimmed and split on runs of quotes and at signs, has
    fewer than three fields; otherwise the record is complete: a non-empty
    kind, an identifier, one pair for each segment and the first name as
    primary name.  No record is built on failure. *)
Theorem C2_parse_fails_iff_malformed (raw : string) :
  ((exists e, parse raw = inl e) <-> malformed raw = true)
  /\ ((exists e, Hint_init raw = inl e) <-> malformed raw = true)
  /\ ((exists k i p ps,
         k <> "" /\ length (p :: ps) = length (split slash raw)
         /\ Hint_init raw = inr (mkHint raw (Some k) (Some i) (p :: ps) (fst p)))
      <-> malformed raw = false).
Proof.
  unfold Hint_init.
  destruct (MalformedFacts.parse_cases raw)
    as [[Hm [e He]] | [Hm [k [i [p [ps [Hk [Hlen He]]]]]]]]; rewrite Hm, He.
  - split; [|split].
    + split; eauto.
    + split; eauto.
    + split; [|discriminate]. intros [k [i [p [ps [_ [_ H]]]]]]. discriminate H.
  - cbn [list_get nth_error].
    split; [|split].
    + split; [intros [e H]; discriminate H | discriminate].
    + split; [intros [e H]; discriminate H | discriminate].
    + split; [reflexivity|]. intros _. exists k, i, p, ps. auto.
Qed.

Local Open Scope list_scope.

(** C5 — in the example path the expected lines of a test case are
    compared with the rendered lines position by position.  For a test case
    that reached its rendered lines: when line [i] is the first mismatch,
    the test case logs that one mismatch and its failure and nothing else,
    and it does so whatever stands behind position [i] in the rendered and
    in the expected lines, so the lines after [i] are never looked at; when
    every expected line equals its rendered counterpart, the test case logs
    its success. *)
Theorem C5_example_lines_stop_at_first_mismatch {W : Type} {PS : PageSession W}
    (self : QleverUiTester) (test_case : ExampleTestCase)
    (lines : list WebElement) (s s' : St W) :
  example_lines self test_case s = (inr (Some lines), s') ->
  (forall i line e,
      (forall j, j < i -> exists lj,
          nth_error lines j = Some lj
          /\ nth_error (ec_lines test_case) j = Some (text lj)) ->
      nth_error lines i = Some line ->
      nth_error (ec_lines test_case) i = Some e ->
      text line <> e ->
      let records :=
        [Log WARNING (msg_line_mismatch (ec_name test_case) i
                        (length (ec_lines test_case)) (text line) e);
         Log WARNING ("Test Case " ++ ec_name test_case ++ " failed")%string] in
      test_example self test_case s = (inr tt, after s' records)
      /\ forall self' test_case' lines' (t t' : St W),
          example_lines self' test_case' t = (inr (Some lines'), t') ->
          ec_name test_case' = ec_name test_case ->
          length (ec_lines test_case') = length (ec_lines test_case) ->
          firstn (S i) lines' = firstn (S i) lines ->
          firstn (S i) (ec_lines test_case') = firstn (S i) (ec_lines test_case) ->
          test_example self' test_case' t = (inr tt, after t' records))
  /\ ((forall j, j < length (ec_lines test_case) -> exists lj,
          nth_error lines j = Some lj
          /\ nth_error (ec_lines test_case) j = Some (text lj)) ->
      test_example self test_case s
      = (inr tt, after s' [Log INFO "Test Case %s finished successfully"])).
Proof.
  intros Hreach. split.
  - intros i line e Hpre Hl He Hne records. subst records. split.
    + rewrite (test_example_compares self test_case lines s s' Hreach).
      now apply compare_lines_first_mismatch.
    + intros self' test_case' lines' t t' Hreach' Hname Hlen Fl Fe.
      rewrite (test_example_compares self' test_case' lines' t t' Hreach').
      rewrite <- Hname, <- Hlen.
      apply compare_lines_first_mismatch.
      * intros j Hj. destruct (Hpre j Hj) as [lj [H1 H2]]. exists lj.
        rewrite (firstn_nth_error lines lines' (S i) j Fl) by lia.
        rewrite (firstn_nth_error (ec_lines test_case) (ec_lines test_case')
                   (S i) j Fe) by lia.
        now split.
      * now rewrite (firstn_nth_error lines lines' (S i) i Fl) by lia.
      * now rewrite (firstn_nth_error (ec_lines test_case) (ec_lines test_case')
                       (S i) i Fe) by lia.
      * exact Hne.
  - intros Hall.
    rewrite (test_example_compares self test_case lines s s' Hreach).
    now apply compare_lines_all_match.
Qed.

Lemma C5_example_lines_stop_at_first_mismatch_witness :
  (exists s',
      test_example (Samples.tester_examples [Samples.example_three])
        Samples.example_three (Scripted.start (Samples.renders ["x"; "y"; "z"]))
      = (inr tt, s')
      /\ filter is_warning (trace s')
         = [Log WARNING (msg_line_mismatch "three" 0 3 "x" "a");
            Log WARNING "Test Case three failed"])
  /\ (exists s',
      test_example (Samples.tester_examples [Samples.example_three])
        Samples.example_three (Scripted.start (Samples.renders ["a"; "b"; "c"]))
      = (inr tt, s')
      /\ filter is_warning (trace s') = []
      /\ In (Log INFO "Test Case %s finished successfully") (trace s')).
Proof.
  split.
  - eexists. split.
    + refine (proj1 (proj1 (C5_example_lines_stop_at_first_mismatch
               (PS := Scripted.scripted)
               (Samples.tester_examples [Samples.example_three]) Samples.example_three
               [Scripted.shown "x"; Scripted.shown "y"; Scripted.shown "z"]
               (Scripted.start (Samples.renders ["x"; "y"; "z"])) _ _)
               0 (Scripted.shown "x") "a" _ _ _ _)).
      all: first [vm_compute; reflexivity | discriminate | intros j Hj; lia].
    + vm_compute. reflexivity.
  - eexists. split.
    + refine (proj2 (C5_example_lines_stop_at_first_mismatch
               (PS := Scripted.scripted)
               (Samples.tester_examples [Samples.example_three]) Samples.example_three
               [Scripted.shown "a"; Scripted.shown "b"; Scripted.shown "c"]
               (Scripted.start (Samples.renders ["a"; "b"; "c"])) _ _) _).
      * vm_compute. reflexivity.
      * intros j Hj. simpl in Hj.
        destruct j as [|[|[|j]]]; [eexists; split; reflexivity.. | lia].
    + split; [vm_compute; reflexivity|].
      vm_compute. tauto.
Defined.




(** C9 — the comparison loop of the hint path reads the [i]-th hint for
    every position below the number of expected entries and never looks at
    the number of hints: it returns only if there are at least as many hints
    as expected entries, and with fewer it raises an index error.  With no
    hints at all and an entry expected, as when the wait for hints gave the
    empty list, the index error leaves the test case before anything is
    logged for its positions. *)
Theorem C9_hint_comparison_out_of_range {W : Type} {PS : PageSession W}
    (self : QleverUiTester) (name : string) (hints : list Hint)
    (expected_hints : list (list string)) (s : St W) :
  ((exists r s', compare_hints name hints expected_hints s = (inr r, s'))
   -> length expected_hints <= length hints)
  /\ (length hints < length expected_hints ->
      exists s', compare_hints name hints expected_hints s = (inl list_index_error, s'))
  /\ (expected_hints <> [] ->
      compare_hints name [] expected_hints s = (inl list_index_error, s))
  /\ (forall test_case s1,
        collect_hints self test_case s = (inr [], s1) ->
        hc_hints test_case <> [] ->
        test_hint self test_case s = (inl list_index_error, s1)).
Proof.
  assert (Hempty : forall nm es (s0 : St W), es <> [] ->
            compare_hints nm [] es s0 = (inl list_index_error, s0)).
  { intros nm [|e es] s0 H; [congruence|]. reflexivity. }
  assert (Hshort : length hints < length expected_hints ->
            exists s', compare_hints name hints expected_hints s
                       = (inl list_index_error, s')).
  { intros H. exact (compare_short name expected_hints hints [] [] ([], []) s eq_refl H). }
  repeat split.
  - intros [r [s' Hr]].
    destruct (Nat.le_gt_cases (length expected_hints) (length hints)) as [H|H];
      [exact H|].
    destruct (Hshort H) as [s'' E]. congruence.
  - exact Hshort.
  - apply Hempty.
  - intros test_case s1 Hc Hne. unfold test_hint.
    rewrite (bind_inr _ _ _ _ _ Hc). cbn [comprehension].
    rewrite (bind_inr (ret (A := list Hint) []) _ s1 [] s1 eq_refl).
    now rewrite (bind_inl _ _ _ _ _ (Hempty (hc_name test_case) (hc_hints test_case) s1 Hne)).
Qed.

Lemma C9_hint_comparison_out_of_range_witness :
  test_hint (Samples.tester_hints [Samples.case_one]) Samples.case_one
    (Scripted.start (Scripted.loads ++ Samples.types ++ Samples.no_popup))
  = (inl list_index_error,
     snd (collect_hints (Samples.tester_hints [Samples.case_one]) Samples.case_one
            (Scripted.start (Scripted.loads ++ Samples.types ++ Samples.no_popup)))).
Proof.
  refine (proj2 (proj2 (proj2 (C9_hint_comparison_out_of_range (PS := Scripted.scripted)
            (Samples.tester_hints [Samples.case_one]) "one" [] []
            (Scripted.start (Scripted.loads ++ Samples.types ++ Samples.no_popup)))))
            Samples.case_one _ _ _).
  - reflexivity.
  - discriminate.
Defined.

(** C10 — an expected entry is one list, used for the membership test and
    for the identifier and name printed when the position fails (its first
    and second element).  So a position is also counted as matched when the
    identifier of the hint equals the second element of the entry, its
    display name, and the hint is then among the hints found. *)
Theorem C10_display_name_counts_as_match {W : Type} {PS : PageSession W}
    (name : string) (hints : list Hint) (expected_hints : list (list string))
    (i : nat) (h : Hint) (e0 e1 : string) (rest : list string)
    (f nf : list Hint) (s : St W) :
  nth_error hints i = Some h ->
  nth_error expected_hints i = Some (e0 :: e1 :: rest) ->
  (database_id h = Some e1 ->
     hint_round name hints expected_hints i (f, nf) s
     = (inr (f ++ [h], nf),
        after s [Log INFO (msg_hint_ok name i (length expected_hints) h)]))
  /\ (py_in (database_id h) (e0 :: e1 :: rest) = false ->
      hint_round name hints expected_hints i (f, nf) s
      = (inr (f, nf ++ [h]),
         after s [Log WARNING (msg_hint_wrong name i (length expected_hints) h e0 e1)]))
  /\ (database_id h = Some e1 ->
      length expected_hints <= length hints ->
      Forall (fun e => 2 <= length e) expected_hints ->
      exists found not_found s',
        compare_hints name hints expected_hints s = (inr (found, not_found), s')
        /\ In h found).
Proof.
  intros Hh He.
  assert (Hin : database_id h = Some e1 -> py_in (database_id h) (e0 :: e1 :: rest) = true).
  { intros E. apply py_in_spec. exists e1. split; [exact E | right; now left]. }
  split; [|split].
  - intros E. apply hint_round_matched with (e0 :: e1 :: rest); auto.
  - intros E. now apply hint_round_mismatched with rest.
  - intros E Hlen Hwf.
    pose proof (compare_from name expected_hints hints [] [] [] [] s eq_refl Hlen Hwf)
      as Hrun.
    cbn zeta in Hrun. cbn [length app] in Hrun.
    do 3 eexists. split; [exact Hrun|].
    pose proof (results_from_nth hints expected_hints 0 i h _ Hh He) as Hr.
    rewrite (Hin E) in Hr. apply nth_error_In in Hr.
    apply in_map_iff. eexists. split; [|apply filter_In; split; [exact Hr|]];
      reflexivity.
Qed.

Lemma C10_display_name_counts_as_match_witness :
  hint_round "t" [Samples.hint "T1000" "Terminator"] Samples.named_like_id 0 ([], [])
    (Scripted.start [])
  = (inr ([Samples.hint "T1000" "Terminator"], []),
     after (Scripted.start [])
       [Log INFO (msg_hint_ok "t" 0 1 (Samples.hint "T1000" "Terminator"))]).
Proof.
  refine (proj1 (C10_display_name_counts_as_match (PS := Scripted.scripted) "t"
            [Samples.hint "T1000" "Terminator"] Samples.named_like_id 0
            (Samples.hint "T1000" "Terminator") "Q42" "T1000" [] [] []
            (Scripted.start []) _ _) _); reflexivity.
Defined.

(** C1 (as stated, refuted) — the page shows one hint whose text is no
    encoded hint.  The decoder raises, the exception leaves [test_hints]:
    nothing is logged as a mismatch and the second test case is never
    started. *)
Lemma C1_counterexample :
  malformed "garbage" = true
  /\ exists s',
      test_hints (Samples.tester_hints [Samples.case_one; Samples.case_two])
        (Scripted.start Samples.garbage_shown)
      = (inl (AttributeError "'NoneType' object has no attribute 'groups'"), s')
      /\ existsb is_warning (trace s') = false
      /\ ~ In (Log INFO "Starting with Hint Test two") (trace s')
      /\ length (world s') = 6.
Proof.
  split; [reflexivity|].
  eexists. split; [vm_compute; reflexivity|].
  split; [reflexivity|]. split; [|reflexivity].
  cbn. intros H. repeat (destruct H as [H|H]; [discriminate H|]). exact H.
Qed.

(** C1 (amended) — in the hint path nothing catches the exception of the
    decoder: when one of the raw hints brought up for a test case is
    malformed, the exception leaves [test_hint] and [test_hints] in the
    state reached when the raw hints were collected, so no position of that
    test case is compared or logged and no later test case is started. *)
Theorem C1_decode_failure_aborts {W : Type} {PS : PageSession W}
    (self : QleverUiTester) (before : list HintTestCase) (test_case : HintTestCase)
    (later : list HintTestCase) (unprocessed : list WebElement) (s0 s s1 : St W) :
  test_cases_hints self = before ++ test_case :: later ->
  for_acc before (fun tc _ => test_hint self tc) tt s0 = (inr tt, s) ->
  collect_hints self test_case s = (inr unprocessed, s1) ->
  (exists el, In el unprocessed /\ malformed (text el) = true) ->
  exists e,
    test_hint self test_case s = (inl e, s1)
    /\ test_hints self s0 = (inl e, s1).
Proof.
  intros Hcases Hbefore Hcollect Hbad.
  destruct (decode_raises unprocessed s1 Hbad) as [e He].
  assert (Hcase : test_hint self test_case s = (inl e, s1)).
  { unfold test_hint. rewrite (bind_inr _ _ _ _ _ Hcollect).
    now rewrite (bind_inl _ _ _ _ _ He). }
  exists e. split; [exact Hcase|].
  unfold test_hints. rewrite Hcases.
  apply bind_inl.
  rewrite (for_acc_app _ _ _ _ _ _ _ Hbefore).
  cbn [for_acc]. now rewrite (bind_inl _ _ _ _ _ Hcase).
Qed.

Lemma C1_decode_failure_aborts_witness :
  exists e,
    test_hints (Samples.tester_hints [Samples.case_one; Samples.case_two])
      (Scripted.start Samples.garbage_shown)
    = (inl e,
       snd (collect_hints (Samples.tester_hints [Samples.case_one; Samples.case_two])
              Samples.case_one (Scripted.start Samples.garbage_shown))).
Proof.
  edestruct (C1_decode_failure_aborts (PS := Scripted.scripted)
               (Samples.tester_hints [Samples.case_one; Samples.case_two])
               [] Samples.case_one [Samples.case_two] [Scripted.shown "garbage"]
               (Scripted.start Samples.garbage_shown)
               (Scripted.start Samples.garbage_shown))
    as [e [_ H]].
  - reflexivity.
  - reflexivity.
  - vm_compute. reflexivity.
  - exists (Scripted.shown "garbage"). split; [now left | reflexivity].
  - exists e. exact H.
Defined.




(** C3 (the code at the failing input) — the page loads and has no
    examples button.  The driver raises for the missing element, the test
    [not examples_button] is never reached, and the exception leaves
    [test_examples]: no warning is logged, the test case is not skipped and
    the second test case is never started. *)
Lemma C3_missing_button_escapes :
  exists s',
    test_examples (Samples.tester_examples [Samples.example_first; Samples.example_second])
      (Scripted.start Samples.button_missing)
    = (inl Scripted.no_such_element, s')
    /\ existsb is_warning (trace s') = false
    /\ ~ In (Log INFO "Starting with Example Test second") (trace s')
    /\ length (world s') = 3.
Proof.
  eexists. split; [vm_compute; reflexivity|].
  split; [reflexivity|]. split; [|reflexivity].
  cbn. intros H. repeat (destruct H as [H|H]; [discriminate H|]). exact H.
Qed.

(** The part of C3 that the code does: with the dropdown there and not
    displayed, each test case logs its two warnings and the next one runs. *)
Example hidden_dropdown_is_skipped :
  exists s',
    test_examples (Samples.tester_examples [Samples.example_first; Samples.example_second])
      (Scripted.start Samples.dropdown_hidden)
    = (inr tt, s')
    /\ filter is_warning (trace s')
       = [Log WARNING "Test Case first: No examples were shown";
          Log WARNING "Test Case first: Testing examples button failed";
          Log WARNING "Test Case second: No examples were shown";
          Log WARNING "Test Case second: Testing examples button failed"].
Proof. eexists. split; [vm_compute; reflexivity | reflexivity]. Qed.

(** C7 (the code at the failing input) — the pop-up is there at the first
    poll and lists an element without text and a real hint, or a
    placeholder and an element without text.  Both enumerations hold an
    element whose text does not start with the question mark, and
    [get_hints] returns neither: reading the first character of the empty
    text raises an index error that nothing catches. *)
Lemma C7_blank_hint_raises :
  ready [Scripted.shown ""; Scripted.shown ("wd:Q1" ++ q ++ "one" ++ q ++ "@en")] = true
  /\ ready [Scripted.shown "?city"; Scripted.shown ""] = true
  /\ (exists s',
        get_hints (Scripted.start Samples.blank_then_hint) = (inl string_index_error, s'))
  /\ (exists s',
        get_hints (Scripted.start Samples.placeholder_then_blank)
        = (inl string_index_error, s')).
Proof.
  split; [reflexivity|]. split; [reflexivity|].
  split; eexists; vm_compute; reflexivity.
Qed.

(** The polling of C7 on elements that all have a text: three polls that
    see placeholders only, then the whole enumeration of the fourth. *)
Example ready_at_fourth_poll_returns_all :
  exists s',
    get_hints (Scripted.start Samples.ready_at_fourth_poll)
    = (inr [Scripted.shown "?a";
            Scripted.shown ("wd:Q1" ++ q ++ "one" ++ q ++ "@en")], s')
    /\ length (filter (fun ev => match ev with Sleep _ => true | _ => false end)
                 (trace s')) = 4.
Proof. eexists. split; [vm_compute; reflexivity | reflexivity]. Qed.

(** * Further properties of the harness *)

Import Decoded.

(** X1 — [Hint.parse] in closed form.  The kind and the identifier are the
    groups of the marker found in the first field of the first segment; the
    pairs are the second and third field of every segment, in segment
    order, further fields being ignored.  Without a marker there
    [AttributeError] is raised, whatever the other segments hold; with a
    marker and a segment of fewer than three fields, [IndexError]. *)
Theorem X1_parse_closed_form (raw : string) :
  parse raw
  = match re_search (hd "" (fields (hd "" (split slash raw)))) with
    | None => inl attribute_error
    | Some (k, i) =>
        if existsb short (split slash raw) then inl list_index_error
        else inr (Some k, Some i, map name_language (split slash raw))
    end.
Proof.
  unfold parse. pose proof (PyStrFacts.split_not_nil slash raw) as Hne.
  destruct (split slash raw) as [|part parts]; [congruence|].
  cbn [parse_parts hd existsb map].
  rewrite DecoderFacts.parse_part_closed. cbn [py_not].
  destruct (re_search (hd "" (fields part))) as [[k i]|] eqn:E; [|reflexivity].
  destruct (short part); cbn [orb]; [reflexivity|].
  rewrite DecoderFacts.parse_parts_closed
    by (now apply PyStrFacts.re_search_kind_not_empty
          with (s := hd "" (fields part)) (i := i)).
  reflexivity.
Qed.

(** X2 — what every decoded hint satisfies.  When [Hint(text)] returns, the
    kind is one word character or more, the identifier is an upper-case
    letter followed by one digit or more (neither is [None]), the full text
    is the text given, there is one pair for each segment of the text, one
    more than the text has slashes, [get_names] lists the second field of every segment in
    order, and the primary name is the first of them. *)
Theorem X2_decoded_hint_invariant (raw : string) (h : Hint) :
  Hint_init raw = inr h ->
  (exists kind id,
      database_type h = Some kind /\ is_kind kind = true
      /\ database_id h = Some id /\ is_id id = true)
  /\ fulltext h = raw
  /\ name_language_pairs h = map name_language (split slash raw)
  /\ length (name_language_pairs h) = S (occurrences slash raw)
  /\ get_names h = map (fun part => nth 1 (fields part) "") (split slash raw)
  /\ primary_name h = hd "" (get_names h).
Proof.
  unfold Hint_init. rewrite DecoderFacts.parse_closed.
  pose proof (PyStrFacts.split_not_nil slash raw) as Hne.
  destruct (re_search (hd "" (fields (hd "" (split slash raw))))) as [[k i]|] eqn:E;
    [|discriminate].
  destruct (existsb short (split slash raw)); [discriminate|].
  destruct (split slash raw) as [|part parts] eqn:Es; [congruence|].
  cbn [map list_get nth_error]. intros H. inversion H; subst h; clear H.
  destruct (DecoderFacts.re_search_sound _ _ _ E) as [pre [post [_ [Hk [Hi _]]]]].
  unfold get_names. cbn [database_type database_id fulltext name_language_pairs
                         primary_name map hd fst].
  repeat split.
  - exists k, i. auto.
  - rewrite <- (DecoderFacts.split_length slash raw), Es. cbn [length].
    now rewrite length_map.
  - f_equal. rewrite map_map. reflexivity.
Qed.

Lemma X2_decoded_hint_invariant_witness :
  exists h,
    Hint_init ("wd:Q42" ++ q ++ "Douglas Adams" ++ q ++ "@en / " ++ q ++ "D. Adams" ++ q ++ "@de@x")
    = inr h
    /\ get_names h = ["Douglas Adams"; "D. Adams"]
    /\ primary_name h = hd "" (get_names h).
Proof.
  eexists. split; [reflexivity|].
  split; [reflexivity|].
  refine (proj2 (proj2 (proj2 (proj2 (proj2
            (X2_decoded_hint_invariant
               ("wd:Q42" ++ q ++ "Douglas Adams" ++ q ++ "@en / " ++ q ++ "D. Adams" ++ q ++ "@de@x")
               _ _)))))).
  reflexivity.
Defined.

(** X3 — the marker that [Hint.parse] looks for.  [re_search] returns the
    groups of an occurrence of the marker, a run of word characters, a
    colon, an upper-case letter and digits: the run starts where the word
    characters start and the identifier takes every digit there is.  It
    returns [None] exactly when the text holds no such occurrence. *)
Theorem X3_marker_search (s : string) :
  match re_search s with
  | Some (k, i) =>
      exists pre post,
        s = (pre ++ k ++ ":" ++ i ++ post)%string
        /\ is_kind k = true /\ is_id i = true
        /\ starts_with is_digit post = false
        /\ ends_with is_word pre = false
  | None =>
      forall pre k i post,
        is_kind k = true -> is_id i = true -> s <> (pre ++ k ++ ":" ++ i ++ post)%string
  end.
Proof.
  destruct (re_search s) as [[k i]|] eqn:E.
  - exact (DecoderFacts.re_search_sound s k i E).
  - intros pre k i post Hk Hi Hs. subst s.
    exact (DecoderFacts.re_search_complete pre k i post Hk Hi E).
Qed.

(** X4 — white space around a segment does not count.  [Hint.parse] returns
    the same, or raises the same, when white space is put before and behind
    the segments of a text. *)
Theorem X4_parse_ignores_padding (segs : list (string * string * string)) :
  forallb well_padded segs = true ->
  parse (String.concat "/" (map padded segs))
  = parse (String.concat "/" (map core segs)).
Proof.
  intros H. destruct segs as [|seg segs]; [reflexivity|].
  unfold parse. cbn [map].
  assert (Hall : forall f, (forall x, well_padded x = true -> all_chars no_slash (f x) = true) ->
            Forall (fun s => all_chars no_slash s = true) (f seg :: map f segs)).
  { intros f Hf. rewrite forallb_forall in H.
    constructor; [apply Hf, H; now left|].
    apply Forall_forall. intros s Hs. apply in_map_iff in Hs as [x [<- Hx]].
    apply Hf, H. now right. }
  rewrite (PyStrFacts.split_concat (padded seg) (map padded segs))
    by (apply Hall; intros x Hx; now apply DecoderFacts.padded_no_slash).
  rewrite (PyStrFacts.split_concat (core seg) (map core segs))
    by (apply Hall; intros x Hx; now apply DecoderFacts.padded_no_slash).
  exact (DecoderFacts.parse_parts_padded (seg :: segs) (None, None, []) H).
Qed.

Lemma X4_parse_ignores_padding_witness :
  parse ("  wd:Q42" ++ q ++ "A" ++ q ++ "@en / " ++ q ++ "B" ++ q ++ "@de ")
  = parse ("wd:Q42" ++ q ++ "A" ++ q ++ "@en/" ++ q ++ "B" ++ q ++ "@de").
Proof.
  exact (X4_parse_ignores_padding
           [("  ", ("wd:Q42" ++ q ++ "A" ++ q ++ "@en")%string, " ");
            (" ", (q ++ "B" ++ q ++ "@de")%string, " ")] eq_refl).
Defined.

(** X5 — the hint comparison reads the hints at the expected positions
    only: two lists of hints that agree on the first [len(expected_hints)]
    positions give the same outcome, so hints shown behind the expected
    ones neither pass nor fail a test case. *)
Theorem X5_surplus_hints_ignored {W : Type} {PS : PageSession W}
    (name : string) (hints hints' : list Hint) (expected_hints : list (list string))
    (s : St W) :
  firstn (length expected_hints) hints' = firstn (length expected_hints) hints ->
  compare_hints name hints' expected_hints s = compare_hints name hints expected_hints s.
Proof.
  intros H. unfold compare_hints, range_len.
  apply for_acc_ext. intros i fnf s0 Hi. apply in_seq in Hi.
  apply hint_round_prefix; [exact H | lia].
Qed.

Lemma X5_surplus_hints_ignored_witness :
  compare_hints "t" (Samples.three_hints ++ [Samples.hint "Q7" "seven"])
    Samples.second_differs (Scripted.start [])
  = compare_hints "t" Samples.three_hints Samples.second_differs (Scripted.start []).
Proof.
  apply (X5_surplus_hints_ignored (PS := Scripted.scripted)). reflexivity.
Defined.

(** X6 — the example comparison reads the rendered lines at the expected
    positions only: lines rendered behind the expected ones are never
    compared, so an editor that shows more lines than expected can still
    pass. *)
Theorem X6_surplus_lines_ignored {W : Type} {PS : PageSession W}
    (name : string) (lines lines' : list WebElement) (expected_output : list string)
    (s : St W) :
  firstn (length expected_output) lines' = firstn (length expected_output) lines ->
  compare_lines name lines' expected_output s
  = compare_lines name lines expected_output s.
Proof.
  intros H. unfold compare_lines, range_len, bind.
  rewrite (for_ext _ (line_round name lines' expected_output)
             (line_round name lines expected_output)); [reflexivity|].
  intros i s0 Hi. apply in_seq in Hi.
  apply line_round_prefix; [exact H | lia].
Qed.

Lemma X6_surplus_lines_ignored_witness :
  compare_lines "t" [Scripted.shown "a"; Scripted.shown "b"; Scripted.shown "extra"]
    ["a"; "b"] (Scripted.start [])
  = (inr tt, after (Scripted.start []) [Log INFO "Test Case %s finished successfully"]).
Proof.
  rewrite (X6_surplus_lines_ignored (PS := Scripted.scripted) "t"
             [Scripted.shown "a"; Scripted.shown "b"]
             [Scripted.shown "a"; Scripted.shown "b"; Scripted.shown "extra"]
             ["a"; "b"] (Scripted.start []) eq_refl).
  reflexivity.
Defined.

(** X7 — when the editor renders fewer lines than expected and every
    rendered line equals the expected line at its position, the example
    comparison raises an index error at the first missing line: nothing is
    logged, neither a failure nor a success. *)
Theorem X7_missing_lines_raise {W : Type} {PS : PageSession W}
    (name : string) (lines : list WebElement) (expected_output : list string)
    (s : St W) :
  length lines < length expected_output ->
  (forall j line, nth_error lines j = Some line ->
                  nth_error expected_output j = Some (text line)) ->
  compare_lines name lines expected_output s = (inl list_index_error, s).
Proof.
  intros Hlen Hsame. unfold compare_lines, range_len.
  rewrite (seq_split (length lines) _ Hlen).
  apply bind_inl.
  rewrite (for_app_next _ _ _ s s).
  - cbn [for_]. apply bind_inl. apply line_round_out_of_range.
    apply nth_error_None. lia.
  - apply for_still. intros j Hj. apply in_seq in Hj.
    destruct (nth_error lines j) as [line|] eqn:E.
    + now apply line_round_same with line; [|apply Hsame].
    + apply nth_error_None in E. lia.
Qed.

Lemma X7_missing_lines_raise_witness :
  compare_lines "t" [Scripted.shown "a"] ["a"; "b"] (Scripted.start [])
  = (inl list_index_error, Scripted.start []).
Proof.
  apply (X7_missing_lines_raise (PS := Scripted.scripted)).
  - simpl. lia.
  - intros [|[|j]] line H; inversion H; reflexivity.
Defined.

(** X8 — an expected entry with fewer than two elements can only pass.
    When the hint at its position does not match, building the warning reads
    the first two elements of the entry and raises an index error: the
    comparison ends there, having logged at most one record for each
    earlier position and none for this one. *)
Theorem X8_short_entry_raises {W : Type} {PS : PageSession W}
    (name : string) (hints : list Hint) (expected_hints : list (list string))
    (i : nat) (h : Hint) (e : list string) (s : St W) :
  nth_error hints i = Some h ->
  nth_error expected_hints i = Some e ->
  length e < 2 ->
  py_in (database_id h) e = false ->
  exists s',
    compare_hints name hints expected_hints s = (inl list_index_error, s')
    /\ length (trace s') <= length (trace s) + i.
Proof.
  intros Hh He Hlen Hin.
  assert (Hi : i < length expected_hints) by (apply nth_error_Some; congruence).
  assert (Hround : forall fnf (s0 : St W),
            hint_round name hints expected_hints i fnf s0 = (inl list_index_error, s0)).
  { intros [f nf] s0. unfold hint_round, bind, lift, list_get.
    rewrite Hh, He, Hin.
    destruct e as [|e0 [|e1 rest]]; [reflexivity | reflexivity | simpl in Hlen; lia]. }
  destruct (compare_reaches name hints expected_hints i Hround
              (length expected_hints) 0 ([], []) s ltac:(lia)) as [s' [Hrun Hl]].
  exists s'. split; [exact Hrun | lia].
Qed.

Lemma X8_short_entry_raises_witness :
  exists s',
    compare_hints "t" Samples.three_hints [["Q1"; "one"]; ["Q9"]] (Scripted.start [])
    = (inl list_index_error, s')
    /\ length (trace s') <= 1.
Proof.
  apply (X8_short_entry_raises (PS := Scripted.scripted) "t" Samples.three_hints
           [["Q1"; "one"]; ["Q9"]] 1 (Samples.hint "Q2" "two") ["Q9"] (Scripted.start []));
    first [reflexivity | simpl; lia].
Defined.

(** X9 — every outcome of [get_hints].  Whatever the page does, it sleeps
    at most ten times.  A list it returns either holds an element with a
    text whose first character is not the question mark, or it is the empty
    list, returned after exactly ten sleeps and the record that no hints
    were shown: a list of placeholders only is never returned. *)
Theorem X9_get_hints_outcome {W : Type} {PS : PageSession W}
    (s s' : St W) (r : Result (list WebElement)) :
  get_hints s = (r, s') ->
  exists evs,
    trace s' = trace s ++ evs
    /\ sleeps evs <= 10
    /\ forall hs, r = inr hs ->
         existsb real_hint hs = true
         \/ (hs = [] /\ sleeps evs = 10
             /\ exists evs0, evs = evs0 ++ [Log INFO "No hints were shown"]).
Proof.
  unfold get_hints, bind.
  destruct (for_ (seq 0 10) get_hints_round s) as [r1 s1] eqn:E.
  destruct (polls_outcome _ _ _ _ E) as [evs [Ht [Hs [Hx [Hb Hr]]]]].
  rewrite length_seq in Hs, Hx.
  destruct r1 as [e|[| |hs]].
  - intros H. inversion H; subst. exists evs.
    split; [exact Ht|]. split; [exact Hs|]. intros hs Hhs. discriminate Hhs.
  - intros H. inversion H; subst.
    exists (evs ++ [Log INFO "No hints were shown"]).
    cbn [trace]. rewrite Ht, sleeps_app, <- app_assoc. cbn [sleeps filter is_sleep length].
    split; [reflexivity|]. split; [lia|].
    intros hs Hhs. inversion Hhs; subst. right.
    split; [reflexivity|]. split; [rewrite (Hx eq_refl); lia|]. now exists evs.
  - congruence.
  - intros H. inversion H; subst. exists evs.
    split; [exact Ht|]. split; [exact Hs|].
    intros hs' Hhs. inversion Hhs; subst. left. now apply Hr.
Qed.

Lemma X9_get_hints_outcome_witness :
  exists evs,
    trace (snd (get_hints (Scripted.start Samples.ready_at_fourth_poll)))
    = trace (Scripted.start Samples.ready_at_fourth_poll) ++ evs
    /\ sleeps evs <= 10.
Proof.
  destruct (X9_get_hints_outcome (PS := Scripted.scripted)
              (Scripted.start Samples.ready_at_fourth_poll)
              (snd (get_hints (Scripted.start Samples.ready_at_fourth_poll)))
              (fst (get_hints (Scripted.start Samples.ready_at_fourth_poll))))
    as [evs [Ht [Hs _]]].
  - reflexivity.
  - exists evs. now split.
Defined.



(** X11 — [get_hints] returns at the first poll that is ready.  When the
    polls before it all ended waiting, and at this poll the pop-up is found
    and lists elements that all have a text, one of them not starting with
    the question mark, [get_hints] returns the whole enumeration of this
    poll, placeholders included, and polls no more. *)
Theorem X11_first_ready_poll {W : Type} {PS : PageSession W}
    (k : nat) (s sk : St W) (hint_window : WebElement) (w2 w3 : W)
    (hints : list WebElement) :
  k < 10 ->
  for_ (seq 0 k) get_hints_round s = (inr Exhausted, sk) ->
  find_element None By_XPATH "/html/body/ul" (time_sleep 500 (world sk))
  = (inr hint_window, w2) ->
  find_elements (Some hint_window) By_CLASS_NAME "CodeMirror-hint" w2
  = (inr hints, w3) ->
  forallb has_text hints = true ->
  ready hints = true ->
  get_hints s = (inr hints, mkSt w3 (trace sk ++ poll_events hint_window)).
Proof.
  intros Hk Hfirst Hf Ha Ht Hr.
  pose proof (get_hints_round_run k sk hint_window w2 hints w3 Hf Ha Ht) as Hround.
  rewrite Hr in Hround.
  unfold get_hints. rewrite (seq_split k 10 Hk).
  unfold bind at 1. rewrite (for_app_next _ _ _ _ _ Hfirst).
  cbn [for_]. now rewrite (bind_inr _ _ _ _ _ Hround).
Qed.

Lemma X11_first_ready_poll_witness :
  exists s',
    get_hints (Scripted.start Samples.ready_at_fourth_poll)
    = (inr [Scripted.shown "?a"; Scripted.shown ("wd:Q1" ++ q ++ "one" ++ q ++ "@en")],
       s').
Proof.
  eexists.
  eapply (X11_first_ready_poll (PS := Scripted.scripted) 3
            (Scripted.start Samples.ready_at_fourth_poll)).
  - lia.
  - reflexivity.
  - reflexivity.
  - reflexivity.
  - reflexivity.
  - reflexivity.
Defined.

(** X12 — every outcome of [init_page].  Whatever the page does, it is
    requested at most [num_retries] times.  When [init_page] returns, either
    no attempt was allowed, and nothing was done at all, or the last thing
    done was to log that the page was loaded: with an attempt allowed it
    never returns from a page that failed to load. *)
Theorem X12_init_page_outcome {W : Type} {PS : PageSession W}
    (self : QleverUiTester) (s s' : St W) (r : Result unit) :
  init_page self s = (r, s') ->
  exists evs,
    trace s' = trace s ++ evs
    /\ gets evs <= Z.to_nat (num_retries self)
    /\ (r = inr tt ->
        ((num_retries self <= 0)%Z /\ s' = s)
        \/ exists evs0, evs = evs0 ++ [Log INFO (msg_loaded self)]).
Proof.
  unfold init_page, bind.
  destruct (for_ (range (num_retries self)) (init_page_round self) s) as [r1 s1] eqn:E.
  destruct (rounds_outcome self _ _ _ _ E) as [evs [Ht [Hg [Hb [Hn Hr]]]]].
  unfold range in Hg. rewrite length_map, length_seq in Hg.
  intros H. exists evs.
  destruct r1 as [e|[| |x]]; inversion H; subst; clear H.
  - split; [exact Ht|]. split; [exact Hg|]. discriminate.
  - split; [exact Ht|]. split; [exact Hg|]. intros _. left.
    destruct (Z.le_gt_cases (num_retries self) 0) as [Hle|Hgt].
    + split; [exact Hle|].
      unfold range in E. replace (Z.to_nat (num_retries self)) with 0 in E by lia.
      now inversion E.
    + exfalso.
      assert (Hin : In (num_retries self - 1)%Z (range (num_retries self))).
      { unfold range. apply in_map_iff. exists (Z.to_nat (num_retries self - 1)).
        split; [lia | apply in_seq; lia]. }
      specialize (Hn eq_refl _ Hin). lia.
  - split; [exact Ht|]. split; [exact Hg|]. intros _. right. now apply Hb.
  - exfalso. now apply (Hr x).
Qed.

Lemma X12_init_page_outcome_witness :
  exists evs,
    trace (snd (init_page Samples.tester_twice (Scripted.start Samples.loads_at_second)))
    = trace (Scripted.start Samples.loads_at_second) ++ evs
    /\ gets evs <= 2.
Proof.
  destruct (X12_init_page_outcome (PS := Scripted.scripted) Samples.tester_twice
              (Scripted.start Samples.loads_at_second)
              (snd (init_page Samples.tester_twice (Scripted.start Samples.loads_at_second)))
              (fst (init_page Samples.tester_twice (Scripted.start Samples.loads_at_second))))
    as [evs [Ht [Hg _]]].
  - reflexivity.
  - exists evs. now split.
Defined.

(** X13 — [init_page] retries after an [Exception] only.  When an attempt
    raises an exception that is none, such as [KeyboardInterrupt], it leaves
    [init_page] at once: no retry, no error record, no [done], no exit. *)
Theorem X13_interrupt_not_retried {W : Type} {PS : PageSession W}
    (self : QleverUiTester) (k : nat) (s sk s1 : St W) (e : exn) :
  (Z.of_nat k < num_retries self)%Z ->
  for_ (range (Z.of_nat k)) (init_page_round self) s = (inr Exhausted, sk) ->
  attempt self sk = (inl e, s1) ->
  is_Exception e = false ->
  init_page self s = (inl e, s1).
Proof.
  intros Hk Hfirst Ha He.
  pose proof (round_interrupted self (Z.of_nat k) sk s1 e Ha He) as Hr.
  unfold init_page. rewrite (range_split k _ Hk).
  apply bind_inl. rewrite (for_app_next _ _ _ _ _ Hfirst).
  cbn [for_]. now rewrite (bind_inl _ _ _ _ _ Hr).
Qed.

Lemma X13_interrupt_not_retried_witness :
  init_page Samples.tester_twice
    (Scripted.start [Scripted.Raises Scripted.timed_out; Scripted.Raises KeyboardInterrupt])
  = (inl KeyboardInterrupt,
     snd (init_page Samples.tester_twice
            (Scripted.start [Scripted.Raises Scripted.timed_out;
                             Scripted.Raises KeyboardInterrupt]))).
Proof.
  eapply (X13_interrupt_not_retried (PS := Scripted.scripted) Samples.tester_twice 1).
  - reflexivity.
  - reflexivity.
  - reflexivity.
  - reflexivity.
Defined.

(** X14 — the edges of [done].  When the prompt of the terminal raises, as
    at the end of its input, the exception leaves [done] before the
    shutdown record and before the browser is closed.  When the prompt
    returns, the browser is closed; an [Exception] raised by the closing is
    dropped and [done] returns, any other exception leaves [done]. *)
Theorem X14_done_edges {W : Type} {PS : PageSession W} (s : St W) :
  (forall e w1,
      terminal_input (world s) = (inl e, w1) ->
      done s = (inl e, mkSt w1 (trace s ++ [Input])))
  /\ (forall line w1 r w2,
        terminal_input (world s) = (inr line, w1) ->
        driver_close w1 = (r, w2) ->
        done s
        = (match r with
           | inl e => if is_Exception e then inr tt else inl e
           | inr _ => inr tt
           end,
           mkSt w2 (trace s ++ [Input; Log INFO "Shutting down..."; Close]))).
Proof.
  split.
  - intros e w1 Hin. unfold done. apply bind_inl.
    unfold input. now rewrite call_run, Hin.
  - intros line w1 r w2 Hin Hc.
    unfold done, bind, input, close, log_info, try_except.
    rewrite call_run, Hin. cbn [fst snd emit world trace].
    rewrite call_run. cbn [world trace]. rewrite Hc. cbn [fst snd].
    rewrite <- !app_assoc. cbn [app].
    destruct r as [e|[]]; [|reflexivity].
    now destruct (is_Exception e).
Qed.

Lemma X14_done_edges_witness :
  done (Scripted.start [Scripted.Raises EOFError; Scripted.Ok])
  = (inl EOFError, mkSt [Scripted.Ok] [Input])
  /\ done (Scripted.start [Scripted.Line ""; Scripted.Raises Scripted.timed_out])
     = (inr tt, mkSt [] [Input; Log INFO "Shutting down..."; Close]).
Proof.
  split.
  - exact (proj1 (X14_done_edges (PS := Scripted.scripted)
                    (Scripted.start [Scripted.Raises EOFError; Scripted.Ok]))
             EOFError [Scripted.Ok] eq_refl).
  - exact (proj2 (X14_done_edges (PS := Scripted.scripted)
                    (Scripted.start [Scripted.Line ""; Scripted.Raises Scripted.timed_out]))
             "" [Scripted.Raises Scripted.timed_out] (inl Scripted.timed_out) []
             eq_refl eq_refl).
Defined.

(** X15 — an example test case whose dropdown is there and not displayed
    does not stop the run.  The test case logs its two warnings, makes no
    further call to the driver, and [test_examples] goes on with the other
    test cases from there. *)
Theorem X15_hidden_dropdown_goes_on {W : Type} {PS : PageSession W}
    (self : QleverUiTester) (test_case : ExampleTestCase)
    (others : list ExampleTestCase) (s s1 : St W)
    (button menu : WebElement) (w2 w3 w4 : W) :
  test_cases_examples self = test_case :: others ->
  init_page self (after s (example_header test_case)) = (inr tt, s1) ->
  find_element None By_XPATH xpath_examples_button (world s1) = (inr button, w2) ->
  element_click button w2 = (inr tt, w3) ->
  find_element None By_XPATH xpath_dropdown w3 = (inr menu, w4) ->
  is_displayed menu = false ->
  test_examples self s
  = for_acc others (fun tc _ => test_example self tc) tt
      (mkSt w4 (trace s1
                ++ [FindElement None By_XPATH xpath_examples_button;
                    Click button;
                    FindElement None By_XPATH xpath_dropdown;
                    Log WARNING ("Test Case " ++ ec_name test_case
                                 ++ ": No examples were shown");
                    Log WARNING (msg_button_failed (ec_name test_case))])).
Proof.
  intros Hcases Hi Hf Hc Hd Hhid.
  unfold test_examples. rewrite Hcases. cbn [for_acc].
  now rewrite (bind_inr _ _ _ _ _
                 (example_dropdown_hidden self test_case s s1 button w2 w3 menu w4
                    Hi Hf Hc Hd Hhid)).
Qed.

Lemma X15_hidden_dropdown_goes_on_witness :
  exists s',
    test_examples (Samples.tester_examples [Samples.example_first; Samples.example_second])
      (Scripted.start Samples.dropdown_hidden)
    = for_acc [Samples.example_second]
        (fun tc _ => test_example
                       (Samples.tester_examples [Samples.example_first; Samples.example_second])
                       tc) tt s'.
Proof.
  eexists.
  eapply (X15_hidden_dropdown_goes_on (PS := Scripted.scripted)
            (Samples.tester_examples [Samples.example_first; Samples.example_second])
            Samples.example_first [Samples.example_second]
            (Scripted.start Samples.dropdown_hidden)).
  - reflexivity.
  - reflexivity.
  - reflexivity.
  - reflexivity.
  - reflexivity.
  - reflexivity.
Defined.

(** X16 — a run on an empty catalogue.  With no example and no hint test
    case, [test] makes no call to the driver: it logs that all test cases
    are finished and returns, and the script goes on to [done]. *)
Theorem X16_empty_catalogue {W : Type} {PS : PageSession W}
    (self : QleverUiTester) (s : St W) :
  test_cases_examples self = [] ->
  test_cases_hints self = [] ->
  test self s = (inr tt, after s [Log INFO "All Test Cases are finished."])
  /\ main self s = done (after s [Log INFO "All Test Cases are finished."]).
Proof.
  intros He Hh.
  assert (Ht : test self s = (inr tt, after s [Log INFO "All Test Cases are finished."])).
  { unfold test, test_examples, test_hints. rewrite He, Hh. reflexivity. }
  split; [exact Ht|].
  unfold main. now rewrite (bind_inr _ _ _ _ _ Ht).
Qed.

Lemma X16_empty_catalogue_witness :
  test (Samples.tester_hints []) (Scripted.start [])
  = (inr tt, after (Scripted.start []) [Log INFO "All Test Cases are finished."]).
Proof.
  exact (proj1 (X16_empty_catalogue (PS := Scripted.scripted) (Samples.tester_hints [])
                  (Scripted.start []) eq_refl eq_refl)).
Defined.

(** X17 — [init_test_cases] never raises and loads all or nothing.  When
    what was read is an object, each list becomes the value of its key, the
    empty list when the key is missing and the value as it is otherwise,
    [null] included, and nothing is logged.  In every other case (the file
    could not be opened or read, or its top level is no object) both
    attributes stay as they were and one error record is logged. *)
Theorem X17_catalogue_all_or_nothing (loaded : Result json) (self : Catalogue) :
  (forall entries,
      loaded = inr (JObject entries) ->
      init_test_cases loaded self
      = (mkCatalogue
           (match entry "Testcases_Hints" entries with
            | Some v => v
            | None => JArray []
            end)
           (match entry "Testcases_Examples" entries with
            | Some v => v
            | None => JArray []
            end),
         []))
  /\ ((forall entries, loaded <> inr (JObject entries)) ->
      init_test_cases loaded self = (self, [could_not_initialize])).
Proof.
  split.
  - intros entries ->. reflexivity.
  - intros H. destruct loaded as [e|data]; [reflexivity|].
    destruct data; try reflexivity.
    exfalso. now apply (H entries).
Qed.

Lemma X17_catalogue_all_or_nothing_witness :
  init_test_cases (inr (JObject [("Testcases_Hints", JNull)])) empty_catalogue
  = (mkCatalogue JNull (JArray []), [])
  /\ init_test_cases (inr (JArray [])) empty_catalogue
     = (empty_catalogue, [could_not_initialize]).
Proof.
  split.
  - exact (proj1 (X17_catalogue_all_or_nothing
                    (inr (JObject [("Testcases_Hints", JNull)])) empty_catalogue)
             _ eq_refl).
  - apply (proj2 (X17_catalogue_all_or_nothing (inr (JArray [])) empty_catalogue)).
    intros entries H. discriminate H.
Defined.

(** X18 — a page that shows what is expected passes.  When the raw hints
    brought up for a hint test case are the encodings of well-formed hints
    and every expected entry holds the identifier of the hint at its
    position, [test_hint] decodes them all, logs every expected position as
    displayed correctly, then that the test case completed successfully,
    and returns. *)
Theorem X18_shown_as_expected_passes {W : Type} {PS : PageSession W}
    (self : QleverUiTester) (test_case : HintTestCase) (ds : list hint_parts)
    (unprocessed : list WebElement) (s s1 : St W) :
  collect_hints self test_case s = (inr unprocessed, s1) ->
  map text unprocessed = map encoded ds ->
  forallb well_formed ds = true ->
  all_accepted ds (hc_hints test_case) = true ->
  test_hint self test_case s
  = (inr tt,
     after s1
       (map (position_event (hc_name test_case) (length (hc_hints test_case)))
          (position_results (map decoded ds) (hc_hints test_case))
        ++ [status_event (hc_name test_case) Passed]))
  /\ forall r, In r (position_results (map decoded ds) (hc_hints test_case)) ->
               matched r = true.
Proof.
  intros Hc Ht Hwf Hacc.
  destruct (all_accepted_matched ds (hc_hints test_case) 0 Hacc) as [Hlen Hall].
  split; [|exact Hall].
  unfold test_hint. rewrite (bind_inr _ _ _ _ _ Hc).
  rewrite (bind_inr _ _ _ _ _ (decode_all unprocessed ds s1 Ht Hwf)).
  pose proof (compare_all_matched (hc_name test_case) (hc_hints test_case)
                (map decoded ds) [] [] [] [] s1 eq_refl Hlen Hall) as Hrun.
  cbn [length app] in Hrun.
  unfold compare_hints, range_len. rewrite (bind_inr _ _ _ _ _ Hrun).
  cbn [snd report_hints]. unfold log_info. rewrite emit_run, after_after.
  reflexivity.
Qed.

Lemma X18_shown_as_expected_passes_witness :
  exists s',
    test_hint (Samples.tester_hints [Samples.case_one]) Samples.case_one
      (Scripted.start (Scripted.loads ++ Samples.types
                       ++ Samples.popup [Scripted.shown ("wd:Q1" ++ q ++ "one" ++ q ++ "@en")]))
    = (inr tt, s')
    /\ filter is_warning (trace s') = [].
Proof.
  pose proof (X18_shown_as_expected_passes (PS := Scripted.scripted)
                (Samples.tester_hints [Samples.case_one]) Samples.case_one
                [("wd", "Q1", ("one", "en"), [])]
                [Scripted.shown ("wd:Q1" ++ q ++ "one" ++ q ++ "@en")]
                (Scripted.start (Scripted.loads ++ Samples.types
                   ++ Samples.popup [Scripted.shown ("wd:Q1" ++ q ++ "one" ++ q ++ "@en")]))
                (snd (collect_hints (Samples.tester_hints [Samples.case_one]) Samples.case_one
                        (Scripted.start (Scripted.loads ++ Samples.types
                           ++ Samples.popup [Scripted.shown ("wd:Q1" ++ q ++ "one" ++ q ++ "@en")]))))
                eq_refl eq_refl eq_refl eq_refl) as [H _].
  eexists. split; [exact H | reflexivity].
Defined.

(** X19 — an example test case on a page that has everything.  When the
    page loads, the examples button is found and takes the click, the
    dropdown is found and displayed, the example whose text holds the input
    of the test case is found inside the dropdown and takes the click, and
    the editor and its lines are found, the test case makes these calls in
    this order and its outcome is that of the comparison of the lines found
    with the expected lines. *)
Theorem X19_example_reaches_comparison {W : Type} {PS : PageSession W}
    (self : QleverUiTester) (test_case : ExampleTestCase) (s s1 : St W)
    (button menu example editor : WebElement) (lines : list WebElement)
    (w2 w3 w4 w5 w6 w7 w8 : W) :
  init_page self (after s (example_header test_case)) = (inr tt, s1) ->
  find_element None By_XPATH xpath_examples_button (world s1) = (inr button, w2) ->
  element_click button w2 = (inr tt, w3) ->
  find_element None By_XPATH xpath_dropdown w3 = (inr menu, w4) ->
  is_displayed menu = true ->
  find_element (Some menu) By_XPATH (xpath_example (ec_input test_case)) w4
  = (inr example, w5) ->
  element_click example w5 = (inr tt, w6) ->
  find_element None By_XPATH xpath_editor w6 = (inr editor, w7) ->
  find_elements (Some editor) By_XPATH "//span[@role]" w7 = (inr lines, w8) ->
  test_example self test_case s
  = compare_lines (ec_name test_case) lines (ec_lines test_case)
      (mkSt w8 (trace s1
                ++ example_events (ec_input test_case) button menu example editor)).
Proof.
  intros Hi Hb Hcb Hm Hshown He Hce Hed Hl. unfold test_example.
  unfold bind at 1. unfold log_info at 1. rewrite emit_run.
  unfold bind at 1. unfold log_info at 1. rewrite emit_run.
  rewrite after_after. cbn [app].
  change [Log INFO "----------";
          Log INFO ("Starting with Example Test " ++ ec_name test_case)]
    with (example_header test_case).
  rewrite (bind_inr _ _ _ _ _ Hi).
  unfold bind at 1. unfold find at 1. rewrite call_run, Hb. cbn [fst snd not_element].
  unfold bind at 1. unfold click at 1. rewrite call_run. cbn [world trace].
  rewrite Hcb. cbn [fst snd].
  unfold bind at 1. unfold find at 1. rewrite call_run. cbn [world trace].
  rewrite Hm. cbn [fst snd not_element orb]. rewrite Hshown. cbn [negb].
  unfold bind at 1. unfold find at 1. rewrite call_run. cbn [world trace].
  rewrite He. cbn [fst snd not_element].
  unfold bind at 1. unfold click at 1. rewrite call_run. cbn [world trace].
  rewrite Hce. cbn [fst snd].
  unfold bind at 1. unfold find at 1. rewrite call_run. cbn [world trace].
  rewrite Hed. cbn [fst snd].
  unfold bind at 1. unfold find_all at 1. rewrite call_run. cbn [world trace].
  rewrite Hl. cbn [fst snd].
  unfold example_events. rewrite <- !app_assoc. reflexivity.
Qed.

Lemma X19_example_reaches_comparison_witness :
  exists s',
    test_example (Samples.tester_examples [Samples.example_first]) Samples.example_first
      (Scripted.start Samples.example_shown)
    = (inr tt, s')
    /\ filter is_warning (trace s') = [].
Proof.
  eexists. split.
  - etransitivity.
    + eapply (X19_example_reaches_comparison (PS := Scripted.scripted)
                (Samples.tester_examples [Samples.example_first]) Samples.example_first
                (Scripted.start Samples.example_shown)); reflexivity.
    + reflexivity.
  - reflexivity.
Defined.
